(** * process_stores.py: sitemap-driven scraper of store pages

    A shallow embedding of [src/process_stores.py] and the properties of
    its five stages: URL extraction from the sitemap files, the page
    fetch, field extraction from the parsed page, the semaphore-guarded
    per-URL pipeline, and the final filter and sort.

    Conventions of the embedding.
    - A Python [str] is the list of its Unicode code points.
    - A Python [set] of strings is a [gset]; a [dict] is a [gmap].  The
      values stored in a [store_data] dictionary are dynamically typed, so
      they are embedded as the sum type [value].
    - The libraries the script calls (the XML and HTML parsers, the HTTP
      session, [glob], the iteration order of a [set]) are inputs of the
      model, gathered in the record [environment].
    - Effects ([print], exceptions, the global semaphore, the request that
      is sent, the file that is written) are threaded through the monad
      [M], whose state is the number of free permits and the trace of
      events so far.
    - The event loop is modelled twice: [gather] runs the pipelines one
      after the other, and the relation [step] lets any waiting task take a
      free permit and any task that holds one finish, in any order. *)

From Stdlib Require Import NArith ZArith List Ascii String DecimalString.
From Stdlib Require Import Sorting.Sorted Permutation.
From stdpp Require Import base option list gmap sets sorting relations.

Set Warnings "-register-all,-clear-no-such-hyp".

Open Scope N_scope.

(** ** Python strings *)

Definition pystr : Type := list N.

(** A literal: the code points of an ASCII string. *)
Definition str (s : string) : pystr := map N_of_ascii (list_ascii_of_string s).
Arguments str s%_string.

(** [str.isspace] for one code point: the characters [str.strip()]
    removes. *)
Definition isspace (c : N) : bool :=
  ((9 <=? c) && (c <=? 13)) || ((28 <=? c) && (c <=? 32))
  || (c =? 133) || (c =? 160) || (c =? 5760)
  || ((8192 <=? c) && (c <=? 8202))
  || (c =? 8232) || (c =? 8233) || (c =? 8239) || (c =? 8287)
  || (c =? 12288).

Fixpoint lstrip (s : pystr) : pystr :=
  match s with
  | [] => []
  | c :: s' => if isspace c then lstrip s' else s
  end.

Definition rstrip (s : pystr) : pystr := rev (lstrip (rev s)).

(** [s.strip()] *)
Definition strip (s : pystr) : pystr := rstrip (lstrip s).

Fixpoint startswith (p s : pystr) : bool :=
  match p, s with
  | [], _ => true
  | _ :: _, [] => false
  | a :: p', b :: s' => (a =? b) && startswith p' s'
  end.

(** [needle in hay] *)
Fixpoint contains (needle hay : pystr) : bool :=
  startswith needle hay
  || match hay with
     | [] => false
     | _ :: hay' => contains needle hay'
     end.

(** [a < b] on strings: lexicographic on code points, a proper prefix is
    smaller. *)
Fixpoint str_ltb (a b : pystr) : bool :=
  match a, b with
  | _, [] => false
  | [], _ :: _ => true
  | x :: a', y :: b' =>
      if x <? y then true else if y <? x then false else str_ltb a' b'
  end.

(** [a <= b] *)
Definition str_leb (a b : pystr) : bool := negb (str_ltb b a).

Definition str_le (a b : pystr) : Prop := str_leb a b = true.

(** Truth value of a string and of an optional string ([None] is false). *)
Definition nonempty (s : pystr) : bool :=
  match s with [] => false | _ :: _ => true end.

Definition truthy (o : option pystr) : bool :=
  match o with None => false | Some s => nonempty s end.

(** [sorted(l)] on a list of strings.  The sort is stable and compares with
    [<] only; on a list a stable sort has one possible result, computed
    here by insertion from the left. *)
Fixpoint insort (x : pystr) (l : list pystr) : list pystr :=
  match l with
  | [] => [x]
  | y :: l' => if str_ltb x y then x :: l else y :: insort x l'
  end.

Definition sorted (l : list pystr) : list pystr :=
  fold_left (fun acc x => insort x acc) l [].

(** [str(n)] for a length. *)
Definition decimal (n : nat) : pystr :=
  str (NilZero.string_of_uint (Nat.to_uint n)).

(** ** Values held by a [store_data] dictionary *)

Inductive value :=
| VNone
| VStr (s : pystr)
| VDict (d : gmap pystr pystr)
| VList (l : list pystr).

Abbreviation store_data := (gmap pystr value).

Definition of_optional (o : option pystr) : value :=
  match o with None => VNone | Some s => VStr s end.

(** Truth value of a value: [None], [''], [{}] and [[]] are false. *)
Definition value_truthy (v : value) : bool :=
  match v with
  | VNone => false
  | VStr s => nonempty s
  | VDict d => negb (bool_decide (d = ∅))
  | VList l => match l with [] => false | _ :: _ => true end
  end.

(** [a < b] on lists of strings. *)
Fixpoint list_ltb (a b : list pystr) : bool :=
  match a, b with
  | _, [] => false
  | [], _ :: _ => true
  | x :: a', y :: b' =>
      if bool_decide (x = y) then list_ltb a' b' else str_ltb x y
  end.

(** [a < b] on values; [None] is the [TypeError] Python raises when the
    operands are not both strings or both lists. *)
Definition value_lt (a b : value) : option bool :=
  match a, b with
  | VStr x, VStr y => Some (str_ltb x y)
  | VList x, VList y => Some (list_ltb x y)
  | _, _ => None
  end.

(** ** Exceptions, events and the effect monad *)

Inductive exn :=
| ClientError (msg : pystr)        (* aiohttp.ClientError and subclasses *)
| ParseError (msg : pystr)         (* xml.etree.ElementTree.ParseError *)
| FileNotFoundError (msg : pystr)
| KeyError (msg : pystr)
| TypeError (msg : pystr)
| OtherException (msg : pystr).    (* any other class *)

(** [str(e)] *)
Definition exn_str (e : exn) : pystr :=
  match e with
  | ClientError m | ParseError m | FileNotFoundError m
  | KeyError m | TypeError m | OtherException m => m
  end.

(** The two functions whose calls are recorded in the trace. *)
Inductive func := Fetch | Extract.

Inductive event :=
| EvPrint (line : pystr)
| EvAcquire                         (* the semaphore grants a permit *)
| EvRelease                         (* the permit is given back *)
| EvGet (url : pystr)               (* session.get(url) is issued *)
| EvEnter (f : func) (url : pystr)  (* f(url) is called *)
| EvLeave (f : func) (url : pystr)  (* f(url) returns or raises *)
| EvDump (file : pystr) (data : list store_data).

Record world := World { permits : nat; trace : list event }.

(** How a call ends: with a value, with an exception, or suspended for
    ever on a semaphore nobody releases. *)
Inductive outcome (A : Type) :=
| Ret (a : A)
| Raise (e : exn)
| Blocked.
Arguments Ret {A} a.
Arguments Raise {A} e.
Arguments Blocked {A}.

Definition M (A : Type) : Type := world -> outcome A * world.

#[export] Instance M_ret : MRet M := fun A a w => (Ret a, w).

#[export] Instance M_bind : MBind M := fun A B f m w =>
  match m w with
  | (Ret a, w') => f a w'
  | (Raise e, w') => (Raise e, w')
  | (Blocked, w') => (Blocked, w')
  end.

Definition raise {A} (e : exn) : M A := fun w => (Raise e, w).

Definition emit (ev : event) : M unit := fun w =>
  (Ret tt, World (permits w) (trace w ++ [ev])).

Definition print (line : pystr) : M unit := emit (EvPrint line).

(** [try: body except ...: handler]; [handler e = None] when no [except]
    clause matches the class of [e]. *)
Definition try_except {A} (body : M A) (handler : exn -> option (M A)) : M A :=
  fun w =>
    match body w with
    | (Raise e, w') =>
        match handler e with
        | Some h => h w'
        | None => (Raise e, w')
        end
    | r => r
    end.

(** [try: body finally: final] *)
Definition try_finally {A} (body : M A) (final : M unit) : M A := fun w =>
  match body w with
  | (Ret a, w') => (_ ← final; mret a) w'
  | (Raise e, w') => (_ ← final; raise e) w'
  | (Blocked, w') => (Blocked, w')
  end.

(** [for x in l: s = body x s] *)
Fixpoint for_each {A S} (l : list A) (body : A -> S -> M S) (s : S) : M S :=
  match l with
  | [] => mret s
  | x :: l' => s' ← body x s; for_each l' body s'
  end.

(** The semaphore: [acquire] takes a permit when one is free and waits
    otherwise; [release] gives it back. *)
Definition acquire : M unit := fun w =>
  match permits w with
  | O => (Blocked, w)
  | S n => (Ret tt, World n (trace w ++ [EvAcquire]))
  end.

Definition release : M unit := fun w =>
  (Ret tt, World (S (permits w)) (trace w ++ [EvRelease])).

(** [async with semaphore: body] *)
Definition async_with_semaphore {A} (body : M A) : M A :=
  _ ← acquire; try_finally body release.

(** The body of a recorded function: the call and its end, however it
    ends, are events of the trace. *)
Definition recorded {A} (f : func) (url : pystr) (body : M A) : M A :=
  _ ← emit (EvEnter f url); try_finally body (emit (EvLeave f url)).

Definition lift {A} (r : exn + A) : M A :=
  match r with inl e => raise e | inr a => mret a end.

(** ** The sitemap documents (xml.etree.ElementTree) *)

Inductive Element :=
| mkElement (tag : pystr) (text : option pystr) (children : list Element).

Definition tag (e : Element) : pystr := let (t, _, _) := e in t.
Definition text (e : Element) : option pystr := let (_, x, _) := e in x.
Definition children (e : Element) : list Element := let (_, _, c) := e in c.

(** [e.findall(path)] and [e.find(path)] for a path that is one qualified
    tag: the children with that tag, in document order, and the first. *)
Definition findall (qname : pystr) (e : Element) : list Element :=
  List.filter (fun c => bool_decide (tag c = qname)) (children e).

Definition find (qname : pystr) (e : Element) : option Element :=
  head (findall qname e).

(** ** The HTTP session (aiohttp) *)

Record response := Response { status : Z; body : exn + pystr }.

(** ** The page (BeautifulSoup) *)

Record attributes := Attrs {
  attr_id : option pystr;
  attr_class : list pystr;
  attr_href : option pystr
}.

Inductive node :=
| Tag (name : pystr) (attrs : attributes) (contents : list node)
| NavigableString (s : pystr)
| Comment (s : pystr).

(** [n.descendants]: what is below [n], in document order. *)
Fixpoint descendants (n : node) : list node :=
  match n with
  | Tag _ _ cs => flat_map (fun c => c :: descendants c) cs
  | _ => []
  end.

(** [n.text]: the strings below [n], joined; comments do not count. *)
Fixpoint node_text (n : node) : pystr :=
  match n with
  | Tag _ _ cs => concat (map node_text cs)
  | NavigableString s => s
  | Comment _ => []
  end.

Definition is_tag (nm : pystr) (p : attributes -> bool) (n : node) : bool :=
  match n with
  | Tag nm' a _ => bool_decide (nm' = nm) && p a
  | _ => false
  end.

(** [n.find_all(nm, ...)] and [n.find(nm, ...)] *)
Definition find_all (nm : pystr) (p : attributes -> bool) (n : node) : list node :=
  List.filter (is_tag nm p) (descendants n).

Definition soup_find (nm : pystr) (p : attributes -> bool) (n : node) : option node :=
  head (find_all nm p n).

Definition any_attrs (a : attributes) : bool := true.
Definition has_id (i : pystr) (a : attributes) : bool :=
  bool_decide (attr_id a = Some i).
Definition has_class (c : pystr) (a : attributes) : bool :=
  bool_decide (c ∈ attr_class a).

(** [n.select('div.service > div')]: the [div]s below [n] whose parent is
    a [div] of class [service], in document order.  The parent may be [n]
    itself. *)
Definition service_child (parent n : node) : bool :=
  is_tag (str "div") (has_class (str "service")) parent
  && is_tag (str "div") any_attrs n.

Fixpoint select_below (parent n : node) : list node :=
  (if service_child parent n then [n] else [])
  ++ match n with
     | Tag _ _ cs => flat_map (select_below n) cs
     | _ => []
     end.

Definition select_service_div (n : node) : list node :=
  match n with
  | Tag _ _ cs => flat_map (select_below n) cs
  | _ => []
  end.

(** ** What the script is given *)

(** - [glob_glob pattern]: the paths [glob.glob] finds;
    - [ET_parse path]: the root of the document [ET.parse] reads, or the
      exception it raises;
    - [list_of_set s]: [list(s)], the members of [s] in the order this run
      of the interpreter enumerates them;
    - [repr_list l]: how an f-string shows a list of paths;
    - [session_get url headers]: the response to the one GET, or the
      exception that [session.get] raises;
    - [response_error status url]: [str(e)] of the [ClientResponseError]
      that [raise_for_status] raises;
    - [BeautifulSoup html]: the document [BeautifulSoup(html, 'lxml')]
      builds. *)
Record environment := Env {
  glob_glob : pystr -> list pystr;
  ET_parse : pystr -> exn + Element;
  list_of_set : gset pystr -> list pystr;
  repr_list : list pystr -> pystr;
  session_get : pystr -> list (pystr * pystr) -> exn + response;
  response_error : Z -> pystr -> pystr;
  BeautifulSoup : pystr -> node
}.

(** * The program *)

Definition SITEMAP_FILES_PATTERN : pystr := str "iga.com.au-stores-sitemap*.xml.txt".
Definition OUTPUT_FILE : pystr := str "stores.json".

Definition HEADERS : list (pystr * pystr) :=
  [(str "User-Agent",
    str "Mozilla/5.0 (Windows NT 10.0; Win64; x64) AppleWebKit/537.36 (KHTML, like Gecko) Chrome/91.0.4472.124 Safari/537.36")].

Definition CONCURRENCY_LIMIT : nat := 50.

(** The state the script starts in: [semaphore =
    asyncio.Semaphore(CONCURRENCY_LIMIT)] and nothing has happened. *)
Definition initial_world : world := World CONCURRENCY_LIMIT [].

(** ** parse_sitemaps *)

Definition sitemap_ns : pystr := str "http://www.sitemaps.org/schemas/sitemap/0.9".

(** ['ns:url'] under [namespace]: the tag in Clark notation. *)
Definition ns (local : pystr) : pystr := str "{" ++ sitemap_ns ++ str "}" ++ local.

(** The body of the inner loop, lines 33 to 35. *)
Definition add_loc (url_element : Element) (urls : gset pystr) : gset pystr :=
  let loc_element := find (ns (str "loc")) url_element in
  match loc_element with
  | Some loc =>
      if truthy (text loc)
      then match text loc with
           | Some t => {[ strip t ]} ∪ urls
           | None => urls
           end
      else urls
  | None => urls
  end.

(** The inner loop over one parsed document, lines 31 to 35. *)
Definition scan_root (root : Element) (urls : gset pystr) : gset pystr :=
  fold_left (fun urls url_element => add_loc url_element urls)
            (findall (ns (str "url")) root) urls.

(** One turn of the outer loop: the [try] statement, lines 29 to 39. *)
Definition scan_file (env : environment) (file_path : pystr)
    (urls : gset pystr) : M (gset pystr) :=
  try_except
    (root ← lift (ET_parse env file_path);
     mret (scan_root root urls))
    (fun e =>
       match e with
       | ParseError _ =>
           Some (_ ← print (str "Error parsing XML file " ++ file_path
                            ++ str ": " ++ exn_str e);
                 mret urls)
       | FileNotFoundError _ =>
           Some (_ ← print (str "Sitemap file not found: " ++ file_path);
                 mret urls)
       | _ => None
       end).

(** The set the loop has built when it ends, line 25 to 39. *)
Definition sitemap_urls (env : environment) (file_paths : list pystr) : M (gset pystr) :=
  for_each file_paths (scan_file env) ∅.

Definition parse_sitemaps (env : environment) (file_paths : list pystr) : M (list pystr) :=
  urls ← sitemap_urls env file_paths;
  mret (list_of_set env urls).

(** ** fetch_store_page *)

(** [response.raise_for_status()]: aiohttp raises [ClientResponseError], a
    [ClientError], when the status is 400 or more, and does nothing
    otherwise. *)
Definition raise_for_status (env : environment) (url : pystr) (r : response) : M unit :=
  if (400 <=? status r)%Z
  then raise (ClientError (response_error env (status r) url))
  else mret tt.

Definition fetch_store_page (env : environment) (url : pystr) : M (option pystr) :=
  recorded Fetch url
    (try_except
       (_ ← emit (EvGet url);
        response ← lift (session_get env url HEADERS);
        _ ← raise_for_status env url response;
        t ← lift (body response);
        mret (Some t))
       (fun e =>
          match e with
          | ClientError _ =>
              Some (_ ← print (str "Error fetching " ++ url ++ str ": " ++ exn_str e);
                    mret None)
          | _ => None
          end)).

(** ** parse_store_details *)

(** The helper [get_text]: [element.text.strip() if element else None]. *)
Definition get_text (element : option node) : option pystr :=
  match element with
  | Some e => Some (strip (node_text e))
  | None => None
  end.

(** The [href] filter of line 72: [href and 'maps.google.com' in href]. *)
Definition is_maps_href (href : option pystr) : bool :=
  match href with
  | Some h => nonempty h && contains (str "maps.google.com") h
  | None => false
  end.

(** [element['href']] *)
Definition getitem_href (element : node) : exn + pystr :=
  match element with
  | Tag _ a _ =>
      match attr_href a with
      | Some h => inr h
      | None => inl (KeyError (str "href"))
      end
  | _ => inl (TypeError (str "href"))
  end.

(** The body of the loop over the rows, lines 80 to 86. *)
Definition add_row (row : node) (hours : gmap pystr pystr) : gmap pystr pystr :=
  let cols := find_all (str "td") any_attrs row in
  match cols with
  | [col0; col1] =>
      let day := get_text (Some col0) in
      let time_span := soup_find (str "span") (has_class (str "week-hours")) col1 in
      let time := get_text time_span in
      if truthy day && truthy time
      then match day, time with
           | Some d, Some t => <[ d := t ]> hours
           | _, _ => hours
           end
      else hours
  | _ => hours
  end.

(** Lines 76 to 86. *)
Definition store_hours (soup : node) : gmap pystr pystr :=
  let hours_table := soup_find (str "table") (has_id (str "store-hours-table")) soup in
  match hours_table with
  | Some table =>
      fold_left (fun hours row => add_row row hours)
                (find_all (str "tr") any_attrs table) ∅
  | None => ∅
  end.

(** The body of the loop over the service elements, lines 96 to 98. *)
Definition add_service (service_div : node) (services : list pystr) : list pystr :=
  let service_name := get_text (Some service_div) in
  if truthy service_name
  then match service_name with
       | Some s => services ++ [s]
       | None => services
       end
  else services.

(** Lines 90 to 98: the list before it is sorted. *)
Definition store_services (soup : node) : list pystr :=
  let services_container :=
    soup_find (str "div") (has_class (str "store-services-desktop")) soup in
  match services_container with
  | Some container =>
      fold_left (fun services service_div => add_service service_div services)
                (select_service_div container) []
  | None => []
  end.

(** Lines 58 to 99: the dictionary as it is before the validation. *)
Definition extract_fields (soup : node) (url : pystr) : M store_data :=
  let store_data : store_data := {[ str "url" := VStr url ]} in
  let store_data :=
    <[ str "name" :=
         of_optional (get_text (soup_find (str "h1") (has_id (str "store-name")) soup)) ]>
      store_data in
  let store_data :=
    <[ str "address_line_1" :=
         of_optional
           (get_text (soup_find (str "div") (has_id (str "store-address-line-1")) soup)) ]>
      store_data in
  let store_data :=
    <[ str "address_line_2" :=
         of_optional
           (get_text (soup_find (str "div") (has_id (str "store-address-line-2")) soup)) ]>
      store_data in
  let phone_element := soup_find (str "a") (has_id (str "phone-no")) soup in
  let store_data :=
    <[ str "phone" :=
         match phone_element with
         | Some _ => of_optional (get_text phone_element)
         | None => VNone
         end ]> store_data in
  let directions_element :=
    soup_find (str "a")
      (fun a => has_class (str "external") a && is_maps_href (attr_href a)) soup in
  directions_url ←
    match directions_element with
    | Some element => href ← lift (getitem_href element); mret (VStr href)
    | None => mret VNone
    end;
  let store_data := <[ str "directions_url" := directions_url ]> store_data in
  let store_data := <[ str "hours" := VDict (store_hours soup) ]> store_data in
  let store_data :=
    <[ str "services" := VList (sorted (store_services soup)) ]> store_data in
  mret store_data.

Definition parse_store_details (env : environment) (html_content : option pystr)
    (url : pystr) : M (option store_data) :=
  recorded Extract url
    (if negb (truthy html_content) then mret None else
     let soup := BeautifulSoup env (default [] html_content) in
     store_data ← extract_fields soup url;
     if negb (value_truthy (default VNone (store_data !! str "name")))
     then _ ← print (str "Could not parse store name from " ++ url ++ str ". Skipping.");
          mret None
     else mret (Some store_data)).

(** ** The pipeline of one URL *)

Definition scrape_and_parse_store (env : environment) (url : pystr) : M (option store_data) :=
  html ← fetch_store_page env url;
  if truthy html
  then parse_store_details env html url
  else mret None.

Definition scrape_with_semaphore (env : environment) (url : pystr) : M (option store_data) :=
  async_with_semaphore (scrape_and_parse_store env url).

(** ** main *)

(** [asyncio.gather] over the tasks: the results in the order of the
    tasks.  The pipelines share the semaphore and nothing else, so what
    each returns does not depend on how they interleave; here they run one
    after the other, and [gather_any_schedule] below shows that every
    schedule of the event loop ends with the same results. *)
Definition gather {A} (tasks : list (M A)) : M (list A) :=
  for_each tasks (fun task results => r ← task; mret (results ++ [r])) [].

(** Line 142: [[store for store in results if store]]. *)
Definition keep_scraped (results : list (option store_data)) : list store_data :=
  omap (fun store =>
          match store with
          | Some d => if bool_decide (d = ∅) then None else Some d
          | None => None
          end) results.

(** The key of line 151: [x.get('name', '')]. *)
Definition name_key (x : store_data) : value := default (VStr []) (x !! str "name").

(** [l.sort(key=key)]: a stable sort that compares keys with [<] and stops
    at the first comparison that raises. *)
Fixpoint insort_key {A} (key : A -> value) (x : A) (l : list A) : option (list A) :=
  match l with
  | [] => Some [x]
  | y :: l' =>
      match value_lt (key x) (key y) with
      | None => None
      | Some true => Some (x :: l)
      | Some false => cons y <$> insort_key key x l'
      end
  end.

Definition sort_key {A} (key : A -> value) (l : list A) : option (list A) :=
  fold_left (fun acc x => acc ≫= insort_key key x) l (Some []).

Definition list_sort {A} (key : A -> value) (l : list A) : M (list A) :=
  match sort_key key l with
  | Some l' => mret l'
  | None => raise (TypeError (str "'<' not supported"))
  end.

(** Lines 142 to 157: what [main] does with the gathered results. *)
Definition finalize (results : list (option store_data)) : M unit :=
  let all_stores_data := keep_scraped results in
  _ ← print (str "Successfully scraped data for "
             ++ decimal (length all_stores_data) ++ str " stores.");
  match all_stores_data with
  | [] => print (str "No store data was scraped. Exiting.")
  | _ :: _ =>
      all_stores_data ← list_sort name_key all_stores_data;
      _ ← emit (EvDump OUTPUT_FILE all_stores_data);
      print (str "Data saved to " ++ OUTPUT_FILE)
  end.

Definition main (env : environment) : M unit :=
  let sitemap_files := glob_glob env SITEMAP_FILES_PATTERN in
  match sitemap_files with
  | [] => print (str "No sitemap files found matching pattern: " ++ SITEMAP_FILES_PATTERN)
  | _ :: _ =>
      _ ← print (str "Found sitemap files: " ++ repr_list env sitemap_files);
      store_urls ← parse_sitemaps env sitemap_files;
      _ ← print (str "Found " ++ decimal (length store_urls)
                 ++ str " unique store URLs to scrape.");
      match store_urls with
      | [] => mret tt
      | _ :: _ =>
          results ← gather (map (scrape_with_semaphore env) store_urls);
          finalize results
      end
  end.

(** ** The dispatcher under any schedule *)

(** Where the task of one URL stands: it has not passed [async with
    semaphore], it holds a permit (it fetches, then extracts), or it has
    given the permit back and has its outcome. *)
Inductive task :=
| Waiting (url : pystr)
| Holding (url : pystr)
| Finished (r : outcome (option store_data)).

Record dispatcher := Dispatcher { free : nat; tasks : list task }.

(** What the pipeline of [url] ends with. *)
Definition pipeline_outcome (env : environment) (url : pystr) : outcome (option store_data) :=
  fst (scrape_and_parse_store env url initial_world).

(** One move of the event loop: a waiting task is granted a free permit, or
    a task that holds one runs to its end and gives it back. *)
Inductive step (env : environment) : dispatcher → dispatcher → Prop :=
| step_grant i url n ts :
    ts !! i = Some (Waiting url) →
    step env (Dispatcher (S n) ts) (Dispatcher n (<[ i := Holding url ]> ts))
| step_finish i url n ts :
    ts !! i = Some (Holding url) →
    step env (Dispatcher n ts)
             (Dispatcher (S n) (<[ i := Finished (pipeline_outcome env url) ]> ts)).

(** The dispatcher [main] starts: every URL waits, [limit] permits are free. *)
Definition dispatch (limit : nat) (urls : list pystr) : dispatcher :=
  Dispatcher limit (map Waiting urls).

Definition is_finished (t : task) : bool :=
  match t with Finished _ => true | _ => false end.

(** The permits a task holds, and the moves it still has to make. *)
Definition held (t : task) : nat :=
  match t with Holding _ => 1 | _ => 0 end.

Definition moves_left (t : task) : nat :=
  match t with Waiting _ => 2 | Holding _ => 1 | Finished _ => 0 end.

(** The number of tasks that hold a permit. *)
Definition in_flight (d : dispatcher) : nat := sum_list (held <$> tasks d).

(** [t] is the task of [url] at some stage. *)
Definition task_of (env : environment) (url : pystr) (t : task) : Prop :=
  t = Waiting url ∨ t = Holding url ∨ t = Finished (pipeline_outcome env url).

(** ** Reading a trace *)

(** The sequences written by [json.dump], oldest first. *)
Definition dumps (t : list event) : list (list store_data) :=
  omap (fun ev => match ev with EvDump _ data => Some data | _ => None end) t.

(** What a pipeline returned, [None] also when it did not return. *)
Definition returned {A} (r : outcome (option A) * world) : option A :=
  match fst r with Ret o => o | _ => None end.

(** The call returned: it neither raised nor blocked. *)
Definition returns {A} (r : outcome A * world) : bool :=
  match fst r with Ret _ => true | _ => false end.

(** * Vocabulary of the statements *)

(** [u] is the trimmed text of a [url/loc] of [root] whose text is not
    empty. *)
Definition listed_in (root : Element) (u : pystr) : Prop :=
  ∃ url_element loc t,
    url_element ∈ findall (ns (str "url")) root
    ∧ find (ns (str "loc")) url_element = Some loc
    ∧ text loc = Some t ∧ t ≠ [] ∧ u = strip t.

(** The exceptions [parse_sitemaps] handles. *)
Definition caught (e : exn) : Prop :=
  (∃ m, e = ParseError m) ∨ (∃ m, e = FileNotFoundError m).

(** Every path of [file_paths] is read, is missing, or does not parse. *)
Definition readable (env : environment) (file_paths : list pystr) : Prop :=
  ∀ p e, p ∈ file_paths → ET_parse env p = inl e → caught e.

(** [list(s)] enumerates [s], each member once, in some order. *)
Definition enumerates (env : environment) : Prop :=
  ∀ s, list_of_set env s ≡ₚ elements s.

(** What lines 45 to 47 evaluate to: the text of the response, or the
    exception they raise. *)
Definition request (env : environment) (url : pystr) : exn + pystr :=
  match session_get env url HEADERS with
  | inl e => inl e
  | inr r =>
      if (400 <=? status r)%Z
      then inl (ClientError (response_error env (status r) url))
      else body r
  end.

Definition fetch_error (url : pystr) (e : exn) : pystr :=
  str "Error fetching " ++ url ++ str ": " ++ exn_str e.

(** The events of one pipeline between the grant of the permit and its
    release. *)
Definition pipeline_events (env : environment) (url : pystr) : list event :=
  [EvEnter Fetch url; EvGet url]
  ++ match request env url with
     | inr t =>
         EvLeave Fetch url ::
         (if nonempty t
          then EvEnter Extract url ::
               (if truthy (get_text (soup_find (str "h1") (has_id (str "store-name"))
                                               (BeautifulSoup env t)))
                then []
                else [EvPrint (str "Could not parse store name from " ++ url
                               ++ str ". Skipping.")])
               ++ [EvLeave Extract url]
          else [])
     | inl (ClientError m) =>
         [EvPrint (fetch_error url (ClientError m)); EvLeave Fetch url]
     | inl _ => [EvLeave Fetch url]
     end.

(** [a] comes before [b] in the order of line 151: both keys are strings
    and the first is not greater. *)
Definition key_le {A} (key : A → value) (a b : A) : Prop :=
  ∃ sa sb, key a = VStr sa ∧ key b = VStr sb ∧ str_le sa sb.

(** [o] is what the pipeline of some URL returned. *)
Definition scraped (env : environment) (o : option store_data) : Prop :=
  ∃ url w w', scrape_with_semaphore env url w = (Ret o, w').

(** [row] has exactly two cells, the first reads [d], the [week-hours]
    element of the second reads [t], and neither is empty. *)
Definition row_entry (row : node) (d t : pystr) : Prop :=
  ∃ col0 col1 span,
    find_all (str "td") any_attrs row = [col0; col1]
    ∧ strip (node_text col0) = d ∧ d ≠ []
    ∧ soup_find (str "span") (has_class (str "week-hours")) col1 = Some span
    ∧ strip (node_text span) = t ∧ t ≠ [].

(** The link of the first anchor of class [external] that points to the
    map service, when there is one. *)
Definition directions_link (soup : node) : option pystr :=
  match soup_find (str "a")
          (fun a => has_class (str "external") a && is_maps_href (attr_href a)) soup with
  | Some (Tag _ a _) => attr_href a
  | _ => None
  end.

(** The trimmed texts of [els] that are not empty, in the order of [els]. *)
Definition service_names (els : list node) : list pystr :=
  List.filter nonempty (map (fun e => strip (node_text e)) els).

(** The key of [x] is a string. *)
Definition str_keyed {A} (key : A → value) (x : A) : Prop := ∃ s, key x = VStr s.

(** The requests sent, oldest first. *)
Definition requests (t : list event) : list pystr :=
  omap (fun ev => match ev with EvGet url => Some url | _ => None end) t.

(** [ET.parse] raises on [path]. *)
Definition unreadable (env : environment) (path : pystr) : bool :=
  match ET_parse env path with inl _ => true | inr _ => false end.

(** [u] is listed in one of the files [glob] finds that parse. *)
Definition in_sitemaps (env : environment) (u : pystr) : Prop :=
  ∃ p root, p ∈ glob_glob env SITEMAP_FILES_PATTERN
            ∧ ET_parse env p = inr root ∧ listed_in root u.

(** The record the pipeline of [url] ends with, if it ends with one. *)
Definition record_of (env : environment) (url : pystr) : option store_data :=
  match pipeline_outcome env url with Ret (Some d) => Some d | _ => None end.

(** [s] neither starts nor ends with whitespace: [s.strip()] is [s]. *)
Definition trimmed (s : pystr) : Prop := lstrip s = s ∧ rstrip s = s.

(** The keys of a record. *)
Definition record_keys : gset pystr :=
  list_to_set [str "url"; str "name"; str "address_line_1"; str "address_line_2";
               str "phone"; str "directions_url"; str "hours"; str "services"].

(** [None] or a string. *)
Definition optional_str (v : value) : Prop := v = VNone ∨ ∃ s, v = VStr s.

(** The key of [x] is the string [k]. *)
Definition keyed {A} (key : A → value) (k : pystr) (x : A) : bool :=
  match key x with VStr s => bool_decide (s = k) | _ => false end.

(** * Example inputs *)

(** A sitemap document with one [url/loc] per given text. *)
Definition urlset (locs : list (option pystr)) : Element :=
  mkElement (ns (str "urlset")) None
    (map (fun t => mkElement (ns (str "url")) None
                     [mkElement (ns (str "loc")) t []]) locs).

Definition store_1 : pystr := str "https://x/store/1".
Definition store_2 : pystr := str "https://x/store/2".
Definition store_3 : pystr := str "https://x/store/3".
Definition store_4 : pystr := str "https://x/store/4".
Definition store_5 : pystr := str "https://x/store/5".
Definition store_6 : pystr := str "https://x/store/6".

Definition sitemap_a : Element := urlset [Some store_1; Some (str " https://x/store/2 ")].
Definition sitemap_b : Element := urlset [Some store_1; Some store_3].

(** A sitemap whose only [loc] holds three spaces. *)
Definition sitemap_blank : Element := urlset [Some (str "   ")].

Definition no_attrs : attributes := Attrs None [] None.
Definition with_id (i : string) : attributes := Attrs (Some (str i)) [] None.
Definition with_class (c : string) : attributes := Attrs None [str c] None.

Definition document (cs : list node) : node := Tag (str "[document]") no_attrs cs.
Definition heading (n : string) : node :=
  Tag (str "h1") (with_id "store-name") [NavigableString (str n)].
Definition service (n : string) : node :=
  Tag (str "div") (with_class "service") [Tag (str "div") no_attrs [NavigableString (str n)]].
Definition services_block (c : string) (names : list string) : node :=
  Tag (str "div") (with_class c) (map service names).
Definition hours_row (day time : string) : node :=
  Tag (str "tr") no_attrs
    [Tag (str "td") no_attrs [NavigableString (str day)];
     Tag (str "td") no_attrs
       [Tag (str "span") (with_class "week-hours") [NavigableString (str time)]]].
Definition hours_table (rows : list node) : node :=
  Tag (str "table") (with_id "store-hours-table") rows.

Definition page_berri : node := document [heading " Berri "].
Definition page_adelaide : node := document [heading "Adelaide Central"].
Definition page_barossa : node := document [heading "Barossa"].

Definition monday_morning : node := hours_row "Monday" "9am - 5pm".
Definition monday_late : node := hours_row " Monday " "8am - 6pm".
Definition tuesday : node := hours_row "Tuesday" "9am - 5pm".
(** A row with three cells and a row whose hours are blank. *)
Definition wide_row : node :=
  Tag (str "tr") no_attrs
    [Tag (str "td") no_attrs [NavigableString (str "Sunday")];
     Tag (str "td") no_attrs [];
     Tag (str "td") no_attrs []].
Definition blank_row : node := hours_row "Wednesday" "  ".

Definition example_table : node :=
  hours_table [monday_morning; wide_row; tuesday; blank_row; monday_late].

Definition deli_bakery : node := services_block "store-services-desktop" ["Deli"; "Bakery"]%string.
Definition bakery_deli : node := services_block "store-services-desktop" ["Bakery"; " Deli "]%string.

(** A page with every field, whose services are listed twice: for the
    desktop layout and for the mobile one. *)
Definition page_full : node :=
  document
    [heading "Hahndorf";
     Tag (str "div") (with_id "store-address-line-1") [NavigableString (str "1 Main St")];
     Tag (str "a") (with_id "phone-no") [NavigableString (str "08 8000 0000")];
     Tag (str "a") (Attrs None [str "external"] (Some (str "https://maps.google.com/?q=1")))
         [NavigableString (str "Directions")];
     example_table;
     services_block "store-services-mobile" ["Deli"; "Bakery"]%string;
     deli_bakery].

(** The same services in the other order. *)
Definition page_full_reordered : node := document [heading "Hahndorf"; bakery_deli].

(** Every field but the name. *)
Definition page_nameless : node :=
  document
    [Tag (str "div") (with_id "store-address-line-1") [NavigableString (str "1 Main St")];
     Tag (str "a") (with_id "phone-no") [NavigableString (str "08 8000 0000")];
     example_table;
     deli_bakery].

Definition same (a b : pystr) : bool := bool_decide (a = b).

(** Two sitemap files that share a URL; three stores that answer, one that
    is gone, one that answers 300, one whose request times out with an
    exception that is not a [ClientError], and no route to anything
    else. *)
Definition example_env : environment :=
  {| glob_glob := fun _ => [str "a.xml.txt"; str "b.xml.txt"];
     ET_parse := fun p =>
       if same p (str "a.xml.txt") then inr sitemap_a
       else if same p (str "b.xml.txt") then inr sitemap_b
       else if same p (str "blank.xml.txt") then inr sitemap_blank
       else if same p (str "bad.xml.txt") then inl (ParseError (str "syntax error: line 1, column 0"))
       else inl (FileNotFoundError p);
     list_of_set := elements;
     repr_list := fun _ => str "[...]";
     session_get := fun url _ =>
       if same url store_1 then inr (Response 200 (inr (str "<berri>")))
       else if same url store_2 then inr (Response 200 (inr (str "<adelaide>")))
       else if same url store_3 then inr (Response 200 (inr (str "<barossa>")))
       else if same url store_4 then inr (Response 404 (inr (str "<gone>")))
       else if same url store_5 then inr (Response 300 (inr (str "<hahndorf>")))
       else if same url store_6 then inl (OtherException (str "TimeoutError"))
       else inl (ClientError (str "Cannot connect to host"));
     response_error := fun _ _ => str "404, message='Not Found'";
     BeautifulSoup := fun html =>
       if same html (str "<berri>") then page_berri
       else if same html (str "<adelaide>") then page_adelaide
       else if same html (str "<barossa>") then page_barossa
       else if same html (str "<hahndorf>") then page_full
       else page_nameless |}.

(** The same files read by a run whose sets enumerate in the opposite
    order. *)
Definition example_env_reversed : environment :=
  {| glob_glob := glob_glob example_env;
     ET_parse := ET_parse example_env;
     list_of_set := fun s => reverse (elements s);
     repr_list := repr_list example_env;
     session_get := session_get example_env;
     response_error := response_error example_env;
     BeautifulSoup := BeautifulSoup example_env |}.

Definition example_results : list (option store_data) :=
  map (fun url => returned (scrape_with_semaphore example_env url initial_world))
      [store_1; store_4; store_2; store_3].

(** The example files and one more that cannot be opened. *)
Definition locked_env : environment :=
  {| glob_glob := fun _ => [str "a.xml.txt"; str "locked.xml.txt"; str "b.xml.txt"];
     ET_parse := fun p =>
       if same p (str "locked.xml.txt") then inl (OtherException (str "Permission denied"))
       else ET_parse example_env p;
     list_of_set := list_of_set example_env;
     repr_list := repr_list example_env;
     session_get := session_get example_env;
     response_error := response_error example_env;
     BeautifulSoup := BeautifulSoup example_env |}.

(** * Facts about strings *)

Section strings.
Implicit Types a b c : pystr.

Lemma str_ltb_irrefl a : str_ltb a a = false.
Proof.
  induction a as [|x a IH]; simpl; [done|].
  by rewrite N.ltb_irrefl.
Qed.

Lemma str_ltb_asym a b : str_ltb a b = true → str_ltb b a = false.
Proof.
  revert b. induction a as [|x a IH]; intros [|y b]; simpl; try done.
  destruct (N.ltb_spec x y), (N.ltb_spec y x); try done; try lia.
  apply IH.
Qed.

Lemma str_ltb_trans a b c :
  str_ltb a b = true → str_ltb b c = true → str_ltb a c = true.
Proof.
  revert b c. induction a as [|x a IH]; intros [|y b] [|z c]; simpl; try done.
  destruct (N.ltb_spec x y), (N.ltb_spec y x), (N.ltb_spec y z),
    (N.ltb_spec z y), (N.ltb_spec x z), (N.ltb_spec z x);
    try done; try lia.
  apply IH.
Qed.

Lemma str_ltb_connex a b :
  str_ltb a b = false → str_ltb b a = false → a = b.
Proof.
  revert b. induction a as [|x a IH]; intros [|y b]; simpl; try done.
  destruct (N.ltb_spec x y), (N.ltb_spec y x); try done; try lia.
  intros. f_equal; [lia|]. by apply IH.
Qed.

#[export] Instance str_le_refl : Reflexive str_le.
Proof. intros a. unfold str_le, str_leb. by rewrite str_ltb_irrefl. Qed.

#[export] Instance str_le_trans : Transitive str_le.
Proof.
  intros a b c. unfold str_le, str_leb. rewrite !negb_true_iff.
  intros Hba Hcb. destruct (str_ltb c a) eqn:Hca; [|done].
  destruct (str_ltb a b) eqn:Hab.
  - by rewrite (str_ltb_trans c a b) in Hcb.
  - rewrite (str_ltb_connex a b) in Hca by done. congruence.
Qed.

#[export] Instance str_le_antisym : AntiSymm (=) str_le.
Proof.
  intros a b. unfold str_le, str_leb. rewrite !negb_true_iff.
  intros. by apply str_ltb_connex.
Qed.

Lemma str_le_total a b : str_le a b ∨ str_le b a.
Proof.
  unfold str_le, str_leb. destruct (str_ltb b a) eqn:Hba; [|by left].
  right. by rewrite (str_ltb_asym b a).
Qed.

Lemma str_ltb_le a b : str_ltb a b = true → str_le a b.
Proof. intros H. unfold str_le, str_leb. by rewrite (str_ltb_asym a b). Qed.

Lemma startswith_app a b : startswith a (a ++ b) = true.
Proof. induction a as [|x a IH]; simpl; [done|]. by rewrite N.eqb_refl. Qed.

Lemma contains_startswith a b : startswith a b = true → contains a b = true.
Proof. intros H. destruct b; simpl; rewrite H; done. Qed.

Lemma contains_app a b c : contains b (a ++ b ++ c) = true.
Proof.
  induction a as [|x a IH]; simpl.
  - apply contains_startswith, startswith_app.
  - rewrite IH. apply orb_true_r.
Qed.

Lemma nonempty_iff a : nonempty a = true ↔ a ≠ [].
Proof. destruct a; simpl; split; congruence. Qed.

Lemma truthy_iff (o : option pystr) :
  truthy o = true ↔ ∃ s, o = Some s ∧ s ≠ [].
Proof.
  destruct o as [s|]; simpl.
  - rewrite nonempty_iff. split; [eauto|]. by intros (? & [= <-] & ?).
  - split; [done|]. by intros (? & ? & ?).
Qed.
End strings.

(** * Facts about [sorted] *)

Section sorted.
Implicit Types l : list pystr.

Lemma insort_perm x l : insort x l ≡ₚ x :: l.
Proof.
  induction l as [|y l IH]; simpl; [done|].
  destruct (str_ltb x y); [done|]. rewrite IH. apply perm_swap.
Qed.

Lemma insort_sorted x l :
  StronglySorted str_le l → StronglySorted str_le (insort x l).
Proof.
  induction 1 as [|y l Hl IH Hy]; simpl; [repeat constructor|].
  destruct (str_ltb x y) eqn:Hxy.
  - constructor; [by constructor|]. constructor; [by apply str_ltb_le|].
    eapply Forall_impl; [exact Hy|]. intros z Hz. simpl in Hz.
    etrans; [by apply str_ltb_le|done].
  - constructor; [done|]. rewrite insort_perm. constructor; [|done].
    unfold str_le, str_leb. by rewrite Hxy.
Qed.

Lemma fold_insort_perm l acc :
  fold_left (fun acc x => insort x acc) l acc ≡ₚ acc ++ l.
Proof.
  revert acc. induction l as [|x l IH]; intros acc; simpl.
  - by rewrite app_nil_r.
  - rewrite IH, insort_perm. simpl. apply Permutation_middle.
Qed.

Lemma fold_insort_sorted l acc :
  StronglySorted str_le acc →
  StronglySorted str_le (fold_left (fun acc x => insort x acc) l acc).
Proof.
  revert acc. induction l as [|x l IH]; intros acc Hacc; simpl; [done|].
  by apply IH, insort_sorted.
Qed.

Lemma sorted_perm l : sorted l ≡ₚ l.
Proof. unfold sorted. by rewrite fold_insort_perm. Qed.

Lemma sorted_sorted l : StronglySorted str_le (sorted l).
Proof. apply fold_insort_sorted. constructor. Qed.

Lemma sorted_order_independent l1 l2 : l1 ≡ₚ l2 → sorted l1 = sorted l2.
Proof.
  intros H. apply (StronglySorted_unique str_le); try apply sorted_sorted.
  by rewrite !sorted_perm.
Qed.

(** The order is that of the code points: every capital comes before every
    small letter. *)
Example capitals_first :
  str_ltb (str "Zebra") (str "apple") = true
  ∧ sorted [str "deli"; str "Deli"; str "Bakery"] = [str "Bakery"; str "Deli"; str "deli"].
Proof. split; reflexivity. Qed.
End sorted.

(** * URL extraction *)

Section sitemaps.
Context (env : environment).
Implicit Types urls : gset pystr.

Lemma elem_of_add_loc u url_element urls :
  u ∈ add_loc url_element urls ↔
  u ∈ urls ∨ ∃ loc t, find (ns (str "loc")) url_element = Some loc
                      ∧ text loc = Some t ∧ t ≠ [] ∧ u = strip t.
Proof.
  unfold add_loc. destruct (find _ url_element) as [loc|]; [|naive_solver].
  destruct (text loc) as [t|] eqn:Ht; simpl; [|naive_solver].
  destruct t as [|c t]; simpl; [naive_solver|].
  rewrite elem_of_union, elem_of_singleton. naive_solver.
Qed.

Lemma elem_of_fold_add_loc u els urls :
  u ∈ fold_left (fun urls url_element => add_loc url_element urls) els urls ↔
  u ∈ urls ∨ ∃ url_element loc t,
      url_element ∈ els ∧ find (ns (str "loc")) url_element = Some loc
      ∧ text loc = Some t ∧ t ≠ [] ∧ u = strip t.
Proof.
  revert urls. induction els as [|el els IH]; intros urls; simpl.
  - split; [by left|]. intros [?|(? & ? & ? & H & _)]; [done|]. by inv H.
  - rewrite IH, elem_of_add_loc. split.
    + intros [[?|(loc & t & ?)]|(el' & loc & t & ? & ?)].
      * by left.
      * right. exists el, loc, t. split; [left|done].
      * right. exists el', loc, t. split; [by right|done].
    + intros [?|(el' & loc & t & Hel & ?)]; [by left; left|].
      inv Hel; [left; right; by exists loc, t|].
      right. by exists el', loc, t.
Qed.

Lemma elem_of_scan_root u root urls :
  u ∈ scan_root root urls ↔ u ∈ urls ∨ listed_in root u.
Proof. apply elem_of_fold_add_loc. Qed.

Lemma scan_file_eq p urls w :
  scan_file env p urls w =
  match ET_parse env p with
  | inr root => (Ret (scan_root root urls), w)
  | inl (ParseError m) =>
      (Ret urls,
       World (permits w)
             (trace w ++ [EvPrint (str "Error parsing XML file " ++ p ++ str ": " ++ m)]))
  | inl (FileNotFoundError m) =>
      (Ret urls,
       World (permits w) (trace w ++ [EvPrint (str "Sitemap file not found: " ++ p)]))
  | inl e => (Raise e, w)
  end.
Proof.
  unfold scan_file, try_except, lift, mbind, M_bind.
  by destruct (ET_parse env p) as [[]|].
Qed.

Lemma sitemap_urls_returns paths urls w :
  readable env paths →
  ∃ s w', for_each paths (scan_file env) urls w = (Ret s, w')
    ∧ permits w' = permits w
    ∧ ∀ u, u ∈ s ↔ u ∈ urls ∨ ∃ p root, p ∈ paths ∧ ET_parse env p = inr root
                                        ∧ listed_in root u.
Proof.
  revert urls w. induction paths as [|p paths IH]; intros urls w Hr; simpl.
  { exists urls, w. split; [done|]. split; [done|]. intros u.
    split; [by left|]. intros [?|(? & ? & H & _)]; [done|]. by inv H. }
  assert (readable env paths) as Hr'.
  { intros q e Hq. apply Hr. by right. }
  unfold mbind, M_bind. rewrite scan_file_eq.
  destruct (ET_parse env p) as [e|root] eqn:Hp.
  - destruct (Hr p e) as [[m ->]|[m ->]]; [by left|done|..].
    + destruct (IH urls (World (permits w)
        (trace w ++ [EvPrint (str "Error parsing XML file " ++ p ++ str ": " ++ m)])) Hr')
        as (s & w' & -> & ? & Hs).
      exists s, w'. split; [done|]. split; [done|]. intros u. rewrite Hs.
      split; intros [?|(q & root & Hq & ? & ?)]; try by left.
      * right. exists q, root. split; [by right|done].
      * right. inv Hq; [congruence|]. by exists q, root.
    + destruct (IH urls (World (permits w)
        (trace w ++ [EvPrint (str "Sitemap file not found: " ++ p)])) Hr')
        as (s & w' & -> & ? & Hs).
      exists s, w'. split; [done|]. split; [done|]. intros u. rewrite Hs.
      split; intros [?|(q & root & Hq & ? & ?)]; try by left.
      * right. exists q, root. split; [by right|done].
      * right. inv Hq; [congruence|]. by exists q, root.
  - destruct (IH (scan_root root urls) w Hr') as (s & w' & -> & ? & Hs).
    exists s, w'. split; [done|]. split; [done|]. intros u.
    rewrite Hs, elem_of_scan_root. split.
    + intros [[?|?]|(q & root' & Hq & ? & ?)].
      * by left.
      * right. exists p, root. split; [left|done].
      * right. exists q, root'. split; [by right|done].
    + intros [?|(q & root' & Hq & Hq' & ?)]; [by left; left|].
      inv Hq; [left; right; congruence|]. right. by exists q, root'.
Qed.
End sitemaps.

Ltac run_M :=
  cbn [mret M_ret permits trace exn_str]; rewrite <-?app_assoc; cbn [app]; try reflexivity.

(** * The pipeline of one URL *)

Section one_url.
Context (env : environment).

(** ** Field extraction *)

Lemma soup_find_Some nm p n e :
  soup_find nm p n = Some e → is_tag nm p e = true ∧ In e (descendants n).
Proof.
  unfold soup_find, find_all. intros H.
  apply head_Some in H as [l H].
  assert (In e (List.filter (is_tag nm p) (descendants n))) as Hin.
  { rewrite H. by left. }
  apply filter_In in Hin. tauto.
Qed.

Lemma directions_href nm n e :
  soup_find nm (fun a => has_class (str "external") a && is_maps_href (attr_href a)) n
    = Some e →
  ∃ nm' a cs h, e = Tag nm' a cs ∧ attr_href a = Some h ∧ getitem_href e = inr h
    ∧ contains (str "maps.google.com") h = true.
Proof.
  intros [H _]%soup_find_Some. destruct e as [nm' a cs| |]; simpl in H; try done.
  apply andb_true_iff in H as [_ H]. apply andb_true_iff in H as [_ H].
  unfold is_maps_href in H. simpl. destruct (attr_href a) as [h|] eqn:Ha; [|done].
  apply andb_true_iff in H as [_ H]. exists nm', a, cs, h. by rewrite Ha.
Qed.

Lemma extract_fields_returns soup url :
  ∃ d directions,
    (∀ w, extract_fields soup url w = (Ret d, w))
    ∧ d !! str "url" = Some (VStr url)
    ∧ d !! str "name" = Some (of_optional
        (get_text (soup_find (str "h1") (has_id (str "store-name")) soup)))
    ∧ d !! str "address_line_1" = Some (of_optional
        (get_text (soup_find (str "div") (has_id (str "store-address-line-1")) soup)))
    ∧ d !! str "address_line_2" = Some (of_optional
        (get_text (soup_find (str "div") (has_id (str "store-address-line-2")) soup)))
    ∧ d !! str "phone" = Some (of_optional
        (get_text (soup_find (str "a") (has_id (str "phone-no")) soup)))
    ∧ d !! str "directions_url" = Some directions
    ∧ d !! str "hours" = Some (VDict (store_hours soup))
    ∧ d !! str "services" = Some (VList (sorted (store_services soup)))
    ∧ directions = of_optional (directions_link soup).
Proof.
  unfold extract_fields, directions_link.
  destruct (soup_find (str "a") (fun a => has_class (str "external") a
              && is_maps_href (attr_href a)) soup) as [el|] eqn:Hdir.
  - destruct (directions_href _ _ _ Hdir) as (nm' & a & cs & h & -> & Ha & Hh & _).
    unfold mbind, M_bind. rewrite Hh, Ha. cbn [lift mret M_ret of_optional].
    eexists _, (VStr h). split; [intros w; reflexivity|].
    repeat split; try (by simplify_map_eq).
    simplify_map_eq. by destruct (soup_find (str "a") (has_id (str "phone-no")) soup).
  - unfold mbind, M_bind. cbn [mret M_ret].
    eexists _, VNone. split; [intros w; reflexivity|].
    repeat split; try (by simplify_map_eq).
    simplify_map_eq. by destruct (soup_find (str "a") (has_id (str "phone-no")) soup).
Qed.

Lemma recorded_eq {A} f url (body : M A) w :
  recorded f url body w =
  match body (World (permits w) (trace w ++ [EvEnter f url])) with
  | (Ret a, w') => (Ret a, World (permits w') (trace w' ++ [EvLeave f url]))
  | (Raise e, w') => (Raise e, World (permits w') (trace w' ++ [EvLeave f url]))
  | (Blocked, w') => (Blocked, w')
  end.
Proof.
  unfold recorded, try_finally, mbind, M_bind, emit. cbn.
  by destruct (body _) as [[]].
Qed.

(** What [parse_store_details] does with a page that is not empty: the
    name decides, and nothing else does. *)
Lemma parse_store_details_parsed html url w :
  nonempty html = true →
  let name := get_text (soup_find (str "h1") (has_id (str "store-name"))
                                 (BeautifulSoup env html)) in
  ∃ d, (∀ w0, extract_fields (BeautifulSoup env html) url w0 = (Ret d, w0))
    ∧ d !! str "name" = Some (of_optional name)
    ∧ parse_store_details env (Some html) url w =
      if truthy name
      then (Ret (Some d),
            World (permits w) (trace w ++ [EvEnter Extract url; EvLeave Extract url]))
      else (Ret None,
            World (permits w)
              (trace w ++ [EvEnter Extract url;
                           EvPrint (str "Could not parse store name from " ++ url
                                    ++ str ". Skipping.");
                           EvLeave Extract url])).
Proof.
  intros Hhtml name.
  destruct (extract_fields_returns (BeautifulSoup env html) url)
    as (d & dir & Hd & _ & Hname & _).
  exists d. split; [done|]. split; [done|].
  unfold parse_store_details. rewrite recorded_eq.
  cbn [truthy negb]. rewrite Hhtml. cbn [negb default].
  unfold id. unfold mbind at 1. unfold M_bind at 1. rewrite Hd, Hname. cbn [default].
  fold name. unfold print, emit, mbind, M_bind.
  destruct name as [[|c n]|];
    cbn [of_optional value_truthy nonempty negb truthy mret M_ret trace permits];
    by rewrite <-?app_assoc.
Qed.

(** ** The page fetch *)

Lemma fetch_store_page_eq url w :
  fetch_store_page env url w =
  let after evs :=
    World (permits w)
          (trace w ++ [EvEnter Fetch url; EvGet url] ++ evs ++ [EvLeave Fetch url]) in
  match request env url with
  | inr t => (Ret (Some t), after [])
  | inl (ClientError m) => (Ret None, after [EvPrint (fetch_error url (ClientError m))])
  | inl e => (Raise e, after [])
  end.
Proof.
  unfold fetch_store_page. rewrite recorded_eq.
  unfold try_except, request, raise_for_status, mbind, M_bind, emit, print, emit, lift,
    raise, fetch_error.
  cbn [mret M_ret permits trace].
  destruct (session_get env url HEADERS) as [e|r].
  { destruct e; run_M. }
  cbn [mret M_ret permits trace].
  destruct (400 <=? status r)%Z; [run_M|].
  cbn [mret M_ret permits trace].
  destruct (body r) as [e|t]; [destruct e|]; run_M.
Qed.

Lemma fetch_error_contains url e : contains url (fetch_error url e) = true.
Proof. apply contains_app. Qed.

(** ** Fetch, then extraction *)

Lemma scrape_and_parse_store_run url w :
  ∃ r, scrape_and_parse_store env url w
       = (r, World (permits w) (trace w ++ pipeline_events env url))
    ∧ r ≠ Blocked
    ∧ ∀ d, r = Ret (Some d) →
        ∃ t n, request env url = inr t ∧ nonempty t = true
          ∧ get_text (soup_find (str "h1") (has_id (str "store-name"))
                                (BeautifulSoup env t)) = Some n
          ∧ n ≠ []
          ∧ d !! str "name" = Some (VStr n)
          ∧ ∀ w0, extract_fields (BeautifulSoup env t) url w0 = (Ret d, w0).
Proof.
  unfold scrape_and_parse_store, pipeline_events, mbind, M_bind.
  rewrite fetch_store_page_eq. cbn zeta.
  destruct (request env url) as [e|t] eqn:Hreq.
  - destruct e; eexists; (split; [run_M|]); split; try done;
      intros d [=].
  - cbn [truthy]. destruct (nonempty t) eqn:Ht.
    + set (w1 := World _ _).
      destruct (parse_store_details_parsed t url w1 Ht) as (d & Hd & Hname & ->).
      destruct (get_text _) as [n|] eqn:Hn; cbn [truthy].
      * destruct (nonempty n) eqn:Hne; eexists; (split; [subst w1; run_M|]);
          (split; [done|]); intros d' [=]; subst d'.
        exists t, n. rewrite nonempty_iff in Hne. done.
      * eexists; (split; [subst w1; run_M|]); (split; [done|]); intros d' [=].
    + eexists; (split; [run_M|]); (split; [done|]); intros d' [=].
Qed.

(** ** Under the semaphore *)

Lemma scrape_with_semaphore_eq url n t :
  ∃ r, scrape_with_semaphore env url (World (S n) t)
       = (r, World (S n) (t ++ [EvAcquire] ++ pipeline_events env url ++ [EvRelease]))
    ∧ scrape_and_parse_store env url (World n (t ++ [EvAcquire]))
       = (r, World n ((t ++ [EvAcquire]) ++ pipeline_events env url))
    ∧ r ≠ Blocked.
Proof.
  destruct (scrape_and_parse_store_run url (World n (t ++ [EvAcquire])))
    as (r & Hr & Hnb & _).
  exists r. split; [|done].
  unfold scrape_with_semaphore, async_with_semaphore, acquire, try_finally, release,
    mbind, M_bind, raise.
  cbn [permits trace]. rewrite Hr. cbn [permits trace].
  destruct r; try done; run_M.
Qed.

Lemma scrape_with_semaphore_blocked url t :
  scrape_with_semaphore env url (World 0 t) = (Blocked, World 0 t).
Proof. reflexivity. Qed.

Lemma scraped_name o d :
  scraped env o → o = Some d →
  ∃ n, n ≠ [] ∧ d !! str "name" = Some (VStr n).
Proof.
  intros (url & [[|n] t] & w' & H) ->.
  { by rewrite scrape_with_semaphore_blocked in H. }
  destruct (scrape_with_semaphore_eq url n t) as (r & Hr & Hr' & _).
  rewrite Hr in H. injection H as -> _.
  destruct (scrape_and_parse_store_run url (World n (t ++ [EvAcquire])))
    as (r & Hr'' & _ & Hd).
  rewrite Hr' in Hr''. injection Hr'' as <-.
  destruct (Hd d eq_refl) as (? & name & _ & _ & _ & ? & ? & _). by exists name.
Qed.

Lemma scraped_returned url w :
  returns (scrape_with_semaphore env url w) = true →
  scraped env (returned (scrape_with_semaphore env url w)).
Proof.
  unfold returns, returned. intros H. exists url, w, (snd (scrape_with_semaphore env url w)).
  destruct (scrape_with_semaphore env url w) as [[o|e|] w']; simpl in *; congruence.
Qed.
End one_url.

(** * The final sort *)

Section sort.
Context {A : Type} (key : A → value).
Implicit Types l : list A.

Lemma insort_key_str x l :
  str_keyed key x → Forall (str_keyed key) l →
  ∃ l', insort_key key x l = Some l'
    ∧ l' ≡ₚ x :: l
    ∧ (StronglySorted (key_le key) l → StronglySorted (key_le key) l').
Proof.
  intros [sx Hx]. induction 1 as [|y l [sy Hy] Hl IH]; simpl.
  { eexists. split; [done|]. split; [done|]. repeat constructor. }
  rewrite Hx, Hy. simpl. destruct (str_ltb sx sy) eqn:Hlt.
  - eexists. split; [done|]. split; [done|]. intros Hs.
    constructor; [done|]. constructor.
    + exists sx, sy. split; [done|]. split; [done|]. by apply str_ltb_le.
    + apply StronglySorted_cons in Hs as [Hs _].
      eapply Forall_impl; [exact Hs|]. intros z (sy' & sz & ? & ? & ?).
      exists sx, sz. split; [done|]. split; [done|].
      assert (sy' = sy) as -> by congruence.
      etrans; [by apply str_ltb_le|done].
  - destruct IH as (l' & -> & Hp & Hs'). eexists. split; [done|]. split.
    + rewrite Hp. apply perm_swap.
    + intros [Hy' Hs]%StronglySorted_cons. constructor; [by apply Hs'|].
      rewrite Hp. constructor; [|done].
      exists sy, sx. split; [done|]. split; [done|].
      unfold str_le, str_leb. by rewrite Hlt.
Qed.

Lemma fold_insort_key_str l acc :
  Forall (str_keyed key) l → Forall (str_keyed key) acc →
  StronglySorted (key_le key) acc →
  ∃ l', fold_left (fun acc x => acc ≫= insort_key key x) l (Some acc) = Some l'
    ∧ l' ≡ₚ acc ++ l ∧ StronglySorted (key_le key) l'.
Proof.
  intros Hl. revert acc. induction Hl as [|x l Hx Hl IH]; intros acc Hacc Hs; simpl.
  { exists acc. by rewrite app_nil_r. }
  destruct (insort_key_str x acc Hx Hacc) as (acc' & -> & Hp & Hs'). simpl.
  destruct (IH acc') as (l' & -> & Hp' & Hs'').
  - rewrite Hp. by constructor.
  - by apply Hs'.
  - exists l'. split; [done|]. split; [|done].
    rewrite Hp', Hp. simpl. apply Permutation_middle.
Qed.

Lemma sort_key_str l :
  Forall (str_keyed key) l →
  ∃ l', sort_key key l = Some l' ∧ l' ≡ₚ l ∧ StronglySorted (key_le key) l'.
Proof.
  intros Hl. destruct (fold_insort_key_str l [] Hl) as (l' & ? & ? & ?);
    [constructor..|].
  by exists l'.
Qed.

Lemma StronglySorted_lookup (R : relation A) l i j a b :
  StronglySorted R l → (i < j)%nat → l !! i = Some a → l !! j = Some b → R a b.
Proof.
  intros Hs. revert i j. induction Hs as [|x l Hs IH Hx]; intros i j Hij Hi Hj.
  { done. }
  destruct j as [|j]; [lia|]. simpl in Hj. destruct i as [|i]; simpl in Hi.
  - injection Hi as ->. rewrite Forall_forall in Hx. apply Hx.
    by eapply list_elem_of_lookup_2.
  - apply (IH i j); [lia|done..].
Qed.
End sort.

Section finalize.
Context (env : environment).

Lemma elem_of_keep_scraped d results :
  d ∈ keep_scraped results ↔ Some d ∈ results ∧ d ≠ ∅.
Proof.
  unfold keep_scraped. rewrite list_elem_of_omap. split.
  - intros ([d'|] & Hin & H); [|done]. case_bool_decide; [done|].
    injection H as ->. done.
  - intros [Hin Hne]. exists (Some d). split; [done|].
    by rewrite bool_decide_eq_false_2.
Qed.

Lemma dumps_app t1 t2 : dumps (t1 ++ t2) = dumps t1 ++ dumps t2.
Proof. apply omap_app. Qed.

Lemma dumps_print line : dumps [EvPrint line] = [].
Proof. reflexivity. Qed.

Lemma dumps_dump file data : dumps [EvDump file data] = [data].
Proof. reflexivity. Qed.

Lemma scraped_nonempty results d :
  Forall (scraped env) results → Some d ∈ results → d ≠ ∅.
Proof.
  rewrite Forall_forall. intros Hall Hin ->.
  destruct (scraped_name env (Some ∅) ∅ (Hall _ Hin) eq_refl) as (n & _ & H).
  by rewrite lookup_empty in H.
Qed.

Lemma scraped_str_keyed results :
  Forall (scraped env) results → Forall (str_keyed name_key) (keep_scraped results).
Proof.
  intros Hall. apply Forall_forall. intros d [Hin _]%elem_of_keep_scraped.
  rewrite Forall_forall in Hall.
  destruct (scraped_name env (Some d) d (Hall _ Hin) eq_refl) as (n & _ & H).
  exists n. unfold name_key. by rewrite H.
Qed.

(** What [finalize] does when every record it keeps has a string for a
    name: nothing is written when nothing was scraped, and otherwise the
    records are written once, sorted. *)
Lemma finalize_run results w :
  Forall (str_keyed name_key) (keep_scraped results) →
  ∃ w' data,
    finalize results w = (Ret tt, w')
    ∧ data ≡ₚ keep_scraped results
    ∧ StronglySorted (key_le name_key) data
    ∧ dumps (trace w') =
      dumps (trace w) ++ match keep_scraped results with [] => [] | _ :: _ => [data] end.
Proof.
  intros Hkeys.
  destruct (sort_key_str name_key _ Hkeys) as (data & Hsort & Hperm & Hsorted).
  unfold finalize, list_sort, print, emit, mbind, M_bind. cbn [permits trace].
  destruct (keep_scraped results) as [|d0 ds] eqn:Hkeep.
  - eexists _, data. split; [reflexivity|]. cbn [trace].
    by rewrite !dumps_app, !dumps_print, !app_nil_r.
  - rewrite Hsort. cbn [mret M_ret permits trace].
    eexists _, data. split; [reflexivity|]. cbn [trace].
    by rewrite !dumps_app, !dumps_print, dumps_dump, !app_nil_r.
Qed.

(** C4: given the outcomes the pipelines returned, [finalize] ends normally.
    When no record is left once the absent outcomes are dropped, nothing is
    written.  Otherwise one sequence is written: it is a permutation of the
    records left, it holds exactly the records of the outcomes that are not
    absent, and of two of its records the one at the smaller index never
    has the greater name, names being strings compared code point by code
    point. *)
Theorem final_output_sorted results w :
  Forall (scraped env) results →
  ∃ w', finalize results w = (Ret tt, w')
    ∧ match keep_scraped results with
      | [] => dumps (trace w') = dumps (trace w)
      | _ :: _ =>
          ∃ data, dumps (trace w') = dumps (trace w) ++ [data]
            ∧ data ≡ₚ keep_scraped results
            ∧ (∀ d, d ∈ data ↔ Some d ∈ results)
            ∧ ∀ i j a b, (i < j)%nat → data !! i = Some a → data !! j = Some b →
                key_le name_key a b
      end.
Proof.
  intros Hall.
  destruct (finalize_run results w (scraped_str_keyed results Hall))
    as (w' & data & Hrun & Hperm & Hsorted & Hdumps).
  exists w'. split; [done|].
  destruct (keep_scraped results) as [|d0 ds] eqn:Hkeep.
  { by rewrite Hdumps, app_nil_r. }
  exists data. split; [done|]. split; [done|]. split.
  - intros d. rewrite Hperm, <-Hkeep, elem_of_keep_scraped.
    split; [tauto|]. intros Hin. split; [done|]. by eapply scraped_nonempty.
  - intros i j a b. by apply StronglySorted_lookup.
Qed.
End finalize.

(** * Opening hours *)

Section hours.
Local Abbreviation add_rows rs h := (fold_left (fun h' r => add_row r h') rs h).

Implicit Types hours : gmap pystr pystr.
Implicit Types rows : list node.

Lemma row_entry_functional row d t d' t' :
  row_entry row d t → row_entry row d' t' → d = d' ∧ t = t'.
Proof.
  intros (c0 & c1 & sp & Hc & <- & _ & Hsp & <- & _)
         (c0' & c1' & sp' & Hc' & <- & _ & Hsp' & <- & _).
  rewrite Hc in Hc'. injection Hc' as <- <-.
  rewrite Hsp in Hsp'. by injection Hsp' as <-.
Qed.

Lemma add_row_cases row hours :
  (add_row row hours = hours ∧ ∀ d t, ¬ row_entry row d t)
  ∨ ∃ d t, row_entry row d t ∧ add_row row hours = <[ d := t ]> hours.
Proof.
  unfold add_row.
  destruct (find_all (str "td") any_attrs row) as [|c0 [|c1 [|c2 cs]]] eqn:Hc;
    try (left; split; [done|];
         intros d t (? & ? & ? & Hc' & _); rewrite Hc in Hc'; discriminate).
  cbn [get_text truthy].
  destruct (nonempty (strip (node_text c0))) eqn:Hd; cbn [andb].
  2:{ left. split; [done|]. intros d t (? & ? & ? & Hc' & Hd' & Hne & _).
      rewrite Hc in Hc'. injection Hc' as <- <-.
      apply nonempty_iff in Hne. congruence. }
  destruct (soup_find (str "span") (has_class (str "week-hours")) c1) as [sp|] eqn:Hsp;
    cbn [get_text truthy].
  2:{ left. split; [done|]. intros d t (? & ? & ? & Hc' & _ & _ & Hsp' & _).
      rewrite Hc in Hc'. injection Hc' as <- <-. congruence. }
  destruct (nonempty (strip (node_text sp))) eqn:Ht.
  2:{ left. split; [done|].
      intros d t (? & ? & ? & Hc' & _ & _ & Hsp' & Ht' & Hne).
      rewrite Hc in Hc'. injection Hc' as <- <-.
      rewrite Hsp in Hsp'. injection Hsp' as <-.
      apply nonempty_iff in Hne. congruence. }
  right. exists (strip (node_text c0)), (strip (node_text sp)). split; [|done].
  exists c0, c1, sp. by rewrite <-!nonempty_iff.
Qed.

Lemma add_row_entry row d t hours :
  row_entry row d t → add_row row hours = <[ d := t ]> hours.
Proof.
  intros H. destruct (add_row_cases row hours) as [[_ Hno]|(d' & t' & H' & ->)].
  - by destruct (Hno d t).
  - by destruct (row_entry_functional _ _ _ _ _ H H') as [-> ->].
Qed.

Lemma add_row_skip row hours :
  (∀ d t, ¬ row_entry row d t) → add_row row hours = hours.
Proof.
  intros Hno. destruct (add_row_cases row hours) as [[? _]|(d & t & H & _)]; [done|].
  by destruct (Hno d t).
Qed.

Lemma add_rows_lookup_inv rows hours d t :
  add_rows rows hours !! d = Some t →
  hours !! d = Some t ∨ ∃ row, row ∈ rows ∧ row_entry row d t.
Proof.
  revert hours. induction rows as [|row rows IH]; intros hours; simpl; [by left|].
  intros [H|(row' & ? & ?)]%IH.
  - destruct (add_row_cases row hours) as [[Heq _]|(d' & t' & He & Heq)];
      rewrite Heq in H; [by left|].
    destruct (decide (d' = d)) as [->|Hne].
    + rewrite lookup_insert_eq in H. injection H as ->.
      right. exists row. split; [left|done].
    + rewrite lookup_insert_ne in H by done. by left.
  - right. exists row'. split; [by right|done].
Qed.

Lemma add_rows_lookup_later rows hours d :
  (∀ row t, row ∈ rows → ¬ row_entry row d t) →
  add_rows rows hours !! d = hours !! d.
Proof.
  revert hours. induction rows as [|row rows IH]; intros hours Hno; simpl; [done|].
  rewrite IH by (intros ???; apply Hno; by right).
  destruct (add_row_cases row hours) as [[-> _]|(d' & t' & He & ->)]; [done|].
  apply lookup_insert_ne. intros ->. by apply (Hno row t'); [left|].
Qed.

Lemma add_rows_lookup_mono rows hours d :
  is_Some (hours !! d) → is_Some (add_rows rows hours !! d).
Proof.
  revert hours. induction rows as [|row rows IH]; intros hours H; simpl; [done|].
  apply IH. destruct (add_row_cases row hours) as [[-> _]|(d' & t' & He & ->)]; [done|].
  destruct (decide (d' = d)) as [->|].
  - by rewrite lookup_insert_eq.
  - by rewrite lookup_insert_ne.
Qed.

Lemma add_rows_lookup_entry rows hours row d t :
  row ∈ rows → row_entry row d t → is_Some (add_rows rows hours !! d).
Proof.
  revert hours. induction rows as [|row' rows IH]; intros hours Hin He; [by inv Hin|].
  simpl. inv Hin.
  - apply add_rows_lookup_mono. rewrite (add_row_entry _ d t) by done.
    by rewrite lookup_insert_eq.
  - by apply IH.
Qed.

Lemma add_rows_last rows1 row rows2 hours d t :
  row_entry row d t →
  (∀ row' t', row' ∈ rows2 → ¬ row_entry row' d t') →
  add_rows (rows1 ++ row :: rows2) hours !! d = Some t.
Proof.
  intros He Hno. rewrite fold_left_app. simpl.
  rewrite add_rows_lookup_later by done.
  rewrite (add_row_entry _ d t) by done. apply lookup_insert_eq.
Qed.

(** C7: without a [store-hours-table] the mapping is empty.  With one, a
    day is mapped to a text only if some row of the table has exactly two
    cells, that day as the non-empty trimmed text of the first and that
    text as the non-empty trimmed text of the [week-hours] element of the
    second; every such row puts its day in the mapping; and a row of any
    other shape leaves the mapping as it is. *)
Theorem hours_from_two_cell_rows soup :
  match soup_find (str "table") (has_id (str "store-hours-table")) soup with
  | None => store_hours soup = ∅
  | Some table =>
      let rows := find_all (str "tr") any_attrs table in
      (∀ d t, store_hours soup !! d = Some t → ∃ row, row ∈ rows ∧ row_entry row d t)
      ∧ (∀ row d t, row ∈ rows → row_entry row d t → is_Some (store_hours soup !! d))
      ∧ (∀ row hours, (∀ d t, ¬ row_entry row d t) → add_row row hours = hours)
  end.
Proof.
  unfold store_hours.
  destruct (soup_find (str "table") _ soup) as [table|]; [|done].
  split; [|split].
  - intros d t [H|H]%add_rows_lookup_inv; [|done]. by rewrite lookup_empty in H.
  - intros row d t. apply add_rows_lookup_entry.
  - intros row hours. apply add_row_skip.
Qed.

(** C9: when several rows give the same day, the mapping holds the text of
    the last of them, and holds one entry for that day. *)
Theorem hours_last_row_wins soup table rows1 row rows2 d t :
  soup_find (str "table") (has_id (str "store-hours-table")) soup = Some table →
  find_all (str "tr") any_attrs table = rows1 ++ row :: rows2 →
  row_entry row d t →
  (∀ row' t', row' ∈ rows2 → ¬ row_entry row' d t') →
  store_hours soup !! d = Some t
  ∧ ∃ others, map_to_list (store_hours soup) ≡ₚ (d, t) :: others ∧ d ∉ others.*1.
Proof.
  intros Htable Hrows He Hno. unfold store_hours. rewrite Htable, Hrows.
  pose proof (add_rows_last rows1 row rows2 ∅ d t He Hno) as Hd.
  split; [done|]. set (h := fold_left _ _ _) in *.
  exists (map_to_list (delete d h)). split.
  - rewrite <-(insert_delete_id h d t) at 1 by done.
    apply map_to_list_insert, lookup_delete_eq.
  - intros [[d' t'] [-> Hin]]%list_elem_of_fmap.
    apply elem_of_map_to_list in Hin. simpl in Hin.
    by rewrite lookup_delete_eq in Hin.
Qed.
End hours.

(** * Services *)

Section services.
Lemma add_services_eq els acc :
  fold_left (fun services service_div => add_service service_div services) els acc
  = acc ++ service_names els.
Proof.
  revert acc. induction els as [|e els IH]; intros acc; simpl.
  { by rewrite app_nil_r. }
  rewrite IH. unfold add_service, service_names. cbn [get_text truthy map List.filter].
  destruct (nonempty (strip (node_text e))); [|done].
  by rewrite <-app_assoc.
Qed.

Lemma store_services_eq soup :
  store_services soup =
  match soup_find (str "div") (has_class (str "store-services-desktop")) soup with
  | Some container => service_names (select_service_div container)
  | None => []
  end.
Proof.
  unfold store_services. destruct (soup_find _ _ soup); [|done].
  apply add_services_eq.
Qed.

(** C6: the services are taken from the first [div] of class
    [store-services-desktop] and from nothing else.  The stored list holds
    the non-empty trimmed texts of the service elements of that container,
    in ascending order, and two pages whose containers give the same names
    in different orders store the same list.  Without the container the
    list is empty. *)
Theorem services_sorted_from_desktop soup :
  match soup_find (str "div") (has_class (str "store-services-desktop")) soup with
  | None => sorted (store_services soup) = []
  | Some container =>
      let names := service_names (select_service_div container) in
      sorted (store_services soup) ≡ₚ names
      ∧ StronglySorted str_le (sorted (store_services soup))
      ∧ ∀ soup' container',
          soup_find (str "div") (has_class (str "store-services-desktop")) soup'
            = Some container' →
          service_names (select_service_div container') ≡ₚ names →
          sorted (store_services soup') = sorted (store_services soup)
  end.
Proof.
  rewrite (store_services_eq soup).
  destruct (soup_find _ _ soup) as [container|]; [|done].
  split; [apply sorted_perm|]. split; [apply sorted_sorted|].
  intros soup' container' H' Hperm. rewrite (store_services_eq soup'), H'.
  by apply sorted_order_independent.
Qed.
End services.

(** * The record *)

Section record.
Context (env : environment).

Lemma parse_store_details_empty html_content url w :
  truthy html_content = false →
  parse_store_details env html_content url w
  = (Ret None, World (permits w) (trace w ++ [EvEnter Extract url; EvLeave Extract url])).
Proof.
  intros H. unfold parse_store_details. rewrite recorded_eq, H. cbn [negb]. run_M.
Qed.

(** C3: for a page whose text is not empty, the name decides alone.  When
    the trimmed text of the [store-name] heading is present and not empty,
    a record with that name is returned and nothing is printed; when it is
    absent or empty, nothing is returned and one line that contains the URL
    is printed; and a record is returned in no other case. *)
Theorem name_decides_record html url w :
  nonempty html = true →
  let name := get_text (soup_find (str "h1") (has_id (str "store-name"))
                                 (BeautifulSoup env html)) in
  (∀ n, name = Some n → n ≠ [] →
     ∃ d, parse_store_details env (Some html) url w
          = (Ret (Some d),
             World (permits w) (trace w ++ [EvEnter Extract url; EvLeave Extract url]))
       ∧ d !! str "name" = Some (VStr n))
  ∧ (name = None ∨ name = Some [] →
     ∃ line, parse_store_details env (Some html) url w
          = (Ret None,
             World (permits w)
               (trace w ++ [EvEnter Extract url; EvPrint line; EvLeave Extract url]))
       ∧ contains url line = true)
  ∧ (∀ d w', parse_store_details env (Some html) url w = (Ret (Some d), w') →
     ∃ n, name = Some n ∧ n ≠ [] ∧ d !! str "name" = Some (VStr n)).
Proof.
  intros Hhtml name.
  destruct (parse_store_details_parsed env html url w Hhtml) as (d & _ & Hname & Hrun).
  fold name in Hname, Hrun. rewrite Hrun. split; [|split].
  - intros n Hn Hne. rewrite Hn. cbn [truthy].
    apply nonempty_iff in Hne. rewrite Hne. exists d. by rewrite Hname, Hn.
  - intros Hn. eexists. split.
    + by destruct Hn as [->| ->].
    + apply (contains_app (str "Could not parse store name from ")).
  - intros d' w'. destruct name as [n|]; cbn [truthy]; [|done].
    destruct (nonempty n) eqn:Hne; [|done]. intros [= <- <-].
    exists n. by rewrite <-nonempty_iff.
Qed.

(** C10: in every record that is returned, [hours] is a dictionary and
    [services] is a sorted list, never [None]: the dictionary and the list
    are empty when the page has no hours table and no desktop services
    container. *)
Theorem hours_services_always_present html_content url w d w' :
  parse_store_details env html_content url w = (Ret (Some d), w') →
  ∃ html, html_content = Some html ∧
    let soup := BeautifulSoup env html in
    d !! str "hours" = Some (VDict (store_hours soup))
    ∧ d !! str "services" = Some (VList (sorted (store_services soup)))
    ∧ StronglySorted str_le (sorted (store_services soup))
    ∧ (soup_find (str "table") (has_id (str "store-hours-table")) soup = None →
       store_hours soup = ∅)
    ∧ (soup_find (str "div") (has_class (str "store-services-desktop")) soup = None →
       sorted (store_services soup) = []).
Proof.
  intros H. destruct (truthy html_content) eqn:Ht.
  2:{ by rewrite parse_store_details_empty in H. }
  destruct html_content as [html|]; [|done]. cbn [truthy] in Ht.
  exists html. split; [done|]. intros soup.
  destruct (parse_store_details_parsed env html url w Ht) as (d0 & Hd0 & _ & Hrun).
  rewrite Hrun in H.
  destruct (truthy _); [|done]. injection H as -> _.
  destruct (extract_fields_returns soup url) as (d' & dir & Hd' & Hf).
  assert (d' = d) as ->.
  { specialize (Hd0 w). specialize (Hd' w). fold soup in Hd0. congruence. }
  destruct Hf as (_ & _ & _ & _ & _ & _ & Hh & Hs & _).
  split; [done|]. split; [done|]. split; [apply sorted_sorted|]. split.
  - intros Hno. unfold store_hours. by rewrite Hno.
  - intros Hno. rewrite store_services_eq. by rewrite Hno.
Qed.
End record.

(** * Fetch, sitemaps and permits *)

Section claims.
Context (env : environment).

(** C5, as the code has it: the fetch sends one request and never a
    second.  When the status is below 400 and the body is read, the body is
    returned and nothing is printed.  When a [ClientError] is raised, by
    the request, by [raise_for_status] for a status of 400 or more, or
    while the body is read, one line that contains the URL is printed and
    [None] is returned.  An exception of another class is not caught. *)
Theorem fetch_store_page_outcomes url w :
  let finished evs :=
    World (permits w)
          (trace w ++ [EvEnter Fetch url; EvGet url] ++ evs ++ [EvLeave Fetch url]) in
  (∀ r t, session_get env url HEADERS = inr r → (status r < 400)%Z → body r = inr t →
     fetch_store_page env url w = (Ret (Some t), finished []))
  ∧ (∀ m,
       session_get env url HEADERS = inl (ClientError m)
       ∨ (∃ r, session_get env url HEADERS = inr r ∧ (400 ≤ status r)%Z
               ∧ m = response_error env (status r) url)
       ∨ (∃ r, session_get env url HEADERS = inr r ∧ (status r < 400)%Z
               ∧ body r = inl (ClientError m)) →
       ∃ line, fetch_store_page env url w = (Ret None, finished [EvPrint line])
         ∧ contains url line = true)
  ∧ (∀ e, (∀ m, e ≠ ClientError m) →
       session_get env url HEADERS = inl e
       ∨ (∃ r, session_get env url HEADERS = inr r ∧ (status r < 400)%Z
               ∧ body r = inl e) →
       fetch_store_page env url w = (Raise e, finished [])).
Proof.
  intros finished. rewrite fetch_store_page_eq. cbn zeta. fold finished.
  unfold request. split; [|split].
  - intros r t -> Hst ->. by rewrite (proj2 (Z.leb_gt _ _) Hst).
  - intros m [->|[(r & -> & Hst & ->)|(r & -> & Hst & Hb)]].
    + eexists. split; [done|]. apply fetch_error_contains.
    + rewrite (proj2 (Z.leb_le _ _) Hst).
      eexists. split; [done|]. apply fetch_error_contains.
    + rewrite (proj2 (Z.leb_gt _ _) Hst), Hb.
      eexists. split; [done|]. apply fetch_error_contains.
  - intros e He [->|(r & -> & Hst & Hb)].
    + destruct e; try done. by destruct (He msg).
    + rewrite (proj2 (Z.leb_gt _ _) Hst), Hb.
      destruct e; try done. by destruct (He msg).
Qed.

(** C8: two runs over the same files, whatever the order in which each
    enumerates its set, return lists that are permutations of each other;
    no URL occurs twice in the list, and the list holds exactly the URLs
    listed in some file that parses. *)
Theorem parse_sitemaps_idempotent_dedup env1 env2 file_paths w1 w2 :
  (∀ p, p ∈ file_paths → ET_parse env1 p = ET_parse env2 p) →
  readable env1 file_paths →
  enumerates env1 → enumerates env2 →
  ∃ l1 l2 w1' w2',
    parse_sitemaps env1 file_paths w1 = (Ret l1, w1')
    ∧ parse_sitemaps env2 file_paths w2 = (Ret l2, w2')
    ∧ l1 ≡ₚ l2
    ∧ NoDup l1
    ∧ ∀ u, u ∈ l1 ↔ ∃ p root, p ∈ file_paths ∧ ET_parse env1 p = inr root
                              ∧ listed_in root u.
Proof.
  intros Hsame Hr1 He1 He2. unfold enumerates in He1, He2.
  assert (readable env2 file_paths) as Hr2.
  { intros p e Hp He. apply (Hr1 p e Hp). by rewrite Hsame. }
  destruct (sitemap_urls_returns env1 file_paths ∅ w1 Hr1) as (s1 & w1' & Hs1 & _ & Hin1).
  destruct (sitemap_urls_returns env2 file_paths ∅ w2 Hr2) as (s2 & w2' & Hs2 & _ & Hin2).
  assert (s1 = s2) as <-.
  { apply set_eq. intros u. rewrite Hin1, Hin2.
    split; (intros [?|(p & root & Hp & Hroot & ?)]; [by left|]);
      right; exists p, root; (split; [done|]); (split; [|done]).
    - by rewrite <-Hsame.
    - by rewrite Hsame. }
  exists (list_of_set env1 s1), (list_of_set env2 s1), w1', w2'.
  unfold parse_sitemaps, sitemap_urls, mbind, M_bind. rewrite Hs1, Hs2.
  split; [done|]. split; [done|]. split; [by rewrite He1, He2|]. split.
  - rewrite He1. apply NoDup_elements.
  - intros u. rewrite He1, elem_of_elements, Hin1.
    split; [|by right]. intros [H|H]; [|done]. by apply not_elem_of_empty in H.
Qed.

(** C1, as the code has it: a pipeline that finds a free permit takes it
    before the fetch is entered and gives it back once, when the whole
    pipeline has ended, with a value or with an exception, so that the
    number of free permits is what it was.  The events of the fetch and,
    when the extraction is entered, of the extraction all lie between the
    grant and the release: the permit is held while the fields are
    extracted.  A pipeline that finds no free permit waits and sends
    nothing. *)
Theorem permit_held_until_pipeline_ends url n t :
  ∃ r mid,
    scrape_with_semaphore env url (World (S n) t)
      = (r, World (S n) (t ++ [EvAcquire] ++ mid ++ [EvRelease]))
    ∧ r ≠ Blocked
    ∧ (EvAcquire ∉ mid) ∧ (EvRelease ∉ mid)
    ∧ (∃ rest, mid = EvEnter Fetch url :: EvGet url :: rest
               ∧ EvLeave Fetch url ∈ rest)
    ∧ (EvEnter Extract url ∈ mid → EvLeave Extract url ∈ mid)
    ∧ (∀ d, r = Ret (Some d) →
         mid = [EvEnter Fetch url; EvGet url; EvLeave Fetch url;
                EvEnter Extract url; EvLeave Extract url])
    ∧ scrape_with_semaphore env url (World 0 t) = (Blocked, World 0 t).
Proof.
  destruct (scrape_with_semaphore_eq env url n t) as (r & Hr & Hr' & Hnb).
  destruct (scrape_and_parse_store_run env url (World n (t ++ [EvAcquire])))
    as (r' & Hr'' & _ & Hd).
  rewrite Hr' in Hr''. injection Hr'' as <-.
  exists r, (pipeline_events env url). split; [done|]. split; [done|].
  assert (∀ ev, ev ∈ pipeline_events env url →
            ev ≠ EvAcquire ∧ ev ≠ EvRelease) as Hev.
  { unfold pipeline_events. intros ev.
    destruct (request env url) as [[]|body]; try destruct (nonempty body);
      try destruct (truthy _); cbn [app];
      rewrite ?elem_of_cons, ?elem_of_nil; naive_solver. }
  split; [intros H; by destruct (Hev _ H)|]. split; [intros H; by destruct (Hev _ H)|].
  split; [|split; [|split; [|done]]].
  - eexists. split; [reflexivity|].
    destruct (request env url) as [[]|body]; rewrite ?elem_of_cons; auto.
  - unfold pipeline_events.
    destruct (request env url) as [[]|body]; try destruct (nonempty body);
      try destruct (truthy _); cbn [app];
      rewrite ?elem_of_cons, ?elem_of_nil; naive_solver.
  - intros d Hd'. destruct (Hd d Hd') as (body & name & Hreq & Hne & Hname & Hn & _).
    unfold pipeline_events. rewrite Hreq, Hne, Hname. cbn [truthy].
    apply nonempty_iff in Hn. by rewrite Hn.
Qed.
End claims.

(** * The whole run *)

Section main.
Context (env : environment).

Lemma scan_file_dumps p urls w r w' :
  scan_file env p urls w = (r, w') → dumps (trace w') = dumps (trace w).
Proof.
  rewrite scan_file_eq.
  destruct (ET_parse env p) as [[]|]; intros [= <- <-]; cbn [trace];
    by rewrite ?dumps_app, ?dumps_print, ?app_nil_r.
Qed.

Lemma parse_sitemaps_dumps paths w r w' :
  parse_sitemaps env paths w = (r, w') → dumps (trace w') = dumps (trace w).
Proof.
  unfold parse_sitemaps, sitemap_urls, mbind, M_bind.
  generalize (∅ : gset pystr). revert w.
  induction paths as [|p paths IH]; intros w urls; simpl.
  { by intros [= <- <-]. }
  unfold mbind, M_bind.
  destruct (scan_file env p urls w) as [[urls'|e|] w1] eqn:Hp;
    apply scan_file_dumps in Hp; try (intros [= <- <-]; done).
  intros H. rewrite <-Hp. by eapply IH.
Qed.

Lemma pipeline_events_dumps url : dumps (pipeline_events env url) = [].
Proof.
  unfold pipeline_events.
  destruct (request env url) as [[]|t]; try destruct (nonempty t);
    try destruct (truthy _); reflexivity.
Qed.

Lemma scrape_with_semaphore_dumps url w r w' :
  scrape_with_semaphore env url w = (r, w') → dumps (trace w') = dumps (trace w).
Proof.
  destruct w as [[|n] t].
  { rewrite scrape_with_semaphore_blocked. by intros [= <- <-]. }
  destruct (scrape_with_semaphore_eq env url n t) as (r0 & -> & _).
  intros H.
  replace w' with (World (S n) (t ++ [EvAcquire] ++ pipeline_events env url ++ [EvRelease]))
    by congruence.
  cbn [trace]. rewrite !dumps_app, pipeline_events_dumps. cbn. by rewrite app_nil_r.
Qed.

Lemma gather_scraped urls acc w r w' :
  for_each (map (scrape_with_semaphore env) urls)
           (fun task results => r ← task; mret (results ++ [r])) acc w = (r, w') →
  Forall (scraped env) acc →
  dumps (trace w') = dumps (trace w)
  ∧ ∀ results, r = Ret results → Forall (scraped env) results.
Proof.
  revert acc w. induction urls as [|url urls IH]; intros acc w; simpl.
  { intros [= <- <-] Hacc. split; [done|]. by intros ? [= <-]. }
  unfold mbind at 1. unfold M_bind at 1. unfold mbind at 1. unfold M_bind at 1.
  destruct (scrape_with_semaphore env url w) as [[o|e|] w1] eqn:Hurl;
    pose proof (scrape_with_semaphore_dumps _ _ _ _ Hurl) as Hd;
    try (intros [= <- <-] _; split; [done|]; by intros ? [=]).
  cbn [mret M_ret]. intros H Hacc. rewrite <-Hd. eapply IH; [exact H|].
  apply Forall_app. split; [done|]. constructor; [|done]. by exists url, w, w1.
Qed.

(** X15: whatever [main] is given, every sequence it writes is in
    ascending order of name: the outcomes [main] hands to [finalize] are
    those of the pipelines. *)
Theorem main_writes_sorted r w' :
  main env initial_world = (r, w') →
  ∀ data, data ∈ dumps (trace w') →
    ∀ i j a b, (i < j)%nat → data !! i = Some a → data !! j = Some b →
      key_le name_key a b.
Proof.
  unfold main.
  destruct (glob_glob env SITEMAP_FILES_PATTERN) as [|f fs].
  { intros [= <- <-] data H. by apply elem_of_nil in H. }
  unfold mbind at 1. unfold M_bind at 1. unfold print at 1, emit at 1.
  unfold mbind at 1. unfold M_bind at 1.
  destruct (parse_sitemaps env (f :: fs) _) as [[urls|e|] w1] eqn:Hp;
    apply parse_sitemaps_dumps in Hp; cbn [trace initial_world app] in Hp;
    rewrite dumps_print in Hp;
    try (intros [= <- <-] data H; rewrite Hp in H; by apply elem_of_nil in H).
  unfold mbind at 1. unfold M_bind at 1. unfold print at 1, emit at 1.
  destruct urls as [|u urls].
  { intros [= <- <-] data H. cbn [trace] in H.
    rewrite dumps_app, dumps_print, Hp in H. by apply elem_of_nil in H. }
  unfold mbind at 1. unfold M_bind at 1. unfold gather.
  set (w2 := World _ _).
  assert (dumps (trace w2) = []) as Hw2.
  { subst w2. cbn [trace]. by rewrite dumps_app, dumps_print, Hp. }
  destruct (for_each _ _ _ w2) as [[results|e|] w3] eqn:Hg;
    apply gather_scraped in Hg as [Hd Hres]; try constructor;
    try (intros [= <- <-] data H; rewrite Hd, Hw2 in H; by apply elem_of_nil in H).
  specialize (Hres results eq_refl).
  destruct (finalize_run results w3 (scraped_str_keyed env results Hres))
    as (w4 & data' & -> & _ & Hsorted & Hout).
  intros [= <- <-] data H. rewrite Hout, Hd, Hw2 in H.
  destruct (keep_scraped results); [by apply elem_of_nil in H|].
  apply list_elem_of_singleton in H as ->.
  intros i j a b. by apply StronglySorted_lookup.
Qed.
End main.

(** * The dispatcher under any schedule *)

Section dispatcher.
Context (env : environment).

Lemma scrape_and_parse_store_outcome url w :
  fst (scrape_and_parse_store env url w) = pipeline_outcome env url.
Proof.
  unfold pipeline_outcome, scrape_and_parse_store, mbind, M_bind.
  rewrite !fetch_store_page_eq. cbn zeta.
  destruct (request env url) as [[]|t]; try reflexivity.
  cbn [truthy]. destruct (nonempty t) eqn:Ht; [|reflexivity].
  set (w1 := World _ _). set (w2 := World _ _).
  destruct (parse_store_details_parsed env t url w1 Ht) as (d1 & Hd1 & _ & ->).
  destruct (parse_store_details_parsed env t url w2 Ht) as (d2 & Hd2 & _ & ->).
  assert (d1 = d2) as -> by (specialize (Hd1 w1); specialize (Hd2 w1); congruence).
  by destruct (truthy _).
Qed.

Lemma scrape_with_semaphore_outcome url n t :
  fst (scrape_with_semaphore env url (World (S n) t)) = pipeline_outcome env url.
Proof.
  destruct (scrape_with_semaphore_eq env url n t) as (r & -> & Hr & _).
  rewrite <-(scrape_and_parse_store_outcome url (World n (t ++ [EvAcquire]))).
  by rewrite Hr.
Qed.

Lemma sum_list_insert (f : task → nat) ts i t t' :
  ts !! i = Some t →
  (sum_list (f <$> <[ i := t' ]> ts) + f t = sum_list (f <$> ts) + f t')%nat.
Proof.
  revert i. induction ts as [|t0 ts IH]; intros [|i]; csimpl; try done.
  - intros [= ->]. lia.
  - intros H. specialize (IH i H). lia.
Qed.

(** A move keeps the count: the free permits and the permits held add up
    to the same number. *)
Lemma step_permits d d' :
  step env d d' → (free d' + in_flight d' = free d + in_flight d)%nat.
Proof.
  unfold in_flight. intros [i url n ts H|i url n ts H]; simpl.
  - pose proof (sum_list_insert held ts i _ (Holding url) H). simpl in *. lia.
  - pose proof (sum_list_insert held ts i _ (Finished (pipeline_outcome env url)) H).
    simpl in *. lia.
Qed.

Lemma step_task_of urls d d' :
  step env d d' → Forall2 (task_of env) urls (tasks d) → Forall2 (task_of env) urls (tasks d').
Proof.
  intros [i url n ts H|i url n ts H] Hts; simpl in *.
  - destruct (Forall2_lookup_r _ _ _ _ _ Hts H) as (u & Hu & [[= <-]|[[=]|[=]]]).
    rewrite <-(list_insert_id urls i url) by done.
    apply Forall2_insert; [done|]. right. by left.
  - destruct (Forall2_lookup_r _ _ _ _ _ Hts H) as (u & Hu & [[=]|[[= <-]|[=]]]).
    rewrite <-(list_insert_id urls i url) by done.
    apply Forall2_insert; [done|]. right. by right.
Qed.

(** Every move is one of the two moves a task has to make. *)
Lemma step_moves_left d d' :
  step env d d' →
  (sum_list (moves_left <$> tasks d') < sum_list (moves_left <$> tasks d))%nat.
Proof.
  intros [i url n ts H|i url n ts H]; simpl.
  - pose proof (sum_list_insert moves_left ts i _ (Holding url) H). simpl in *. lia.
  - pose proof (sum_list_insert moves_left ts i _ (Finished (pipeline_outcome env url)) H).
    simpl in *. lia.
Qed.

Lemma dispatch_in_flight limit urls : in_flight (dispatch limit urls) = 0%nat.
Proof.
  unfold in_flight, dispatch. simpl. induction urls as [|u urls IH]; simpl; [done|].
  exact IH.
Qed.

Lemma dispatch_task_of limit urls : Forall2 (task_of env) urls (tasks (dispatch limit urls)).
Proof.
  unfold dispatch. simpl. induction urls as [|u urls IH]; simpl; constructor; [by left|done].
Qed.

(** What every move keeps. *)
Lemma dispatcher_invariant limit urls d :
  rtc (step env) (dispatch limit urls) d →
  (free d + in_flight d = limit)%nat
  ∧ Forall2 (task_of env) urls (tasks d).
Proof.
  revert d. apply rtc_ind_r.
  - split; [|apply dispatch_task_of]. rewrite dispatch_in_flight. simpl. lia.
  - intros y z _ Hstep [IH1 IH2]. split.
    + by rewrite (step_permits y z).
    + by apply (step_task_of urls y z).
Qed.

(** X17: under every schedule of the event loop, the free permits and the
    tasks that hold one add up to the limit, so never more than [limit]
    pipelines are between [async with semaphore] and its end, and each task
    is the task of its URL. *)
Theorem dispatcher_bounded limit urls d :
  rtc (step env) (dispatch limit urls) d →
  (free d + in_flight d = limit)%nat
  ∧ (in_flight d ≤ limit)%nat
  ∧ Forall2 (task_of env) urls (tasks d).
Proof.
  intros Hrtc. destruct (dispatcher_invariant limit urls d Hrtc) as [Hsum Hts].
  split; [done|]. split; [lia|done].
Qed.

Lemma holding_or_none (ts : list task) :
  (∃ i url, ts !! i = Some (Holding url)) ∨ sum_list (held <$> ts) = 0%nat.
Proof.
  induction ts as [|t ts [(i & url & Hi)|IH]]; csimpl.
  - by right.
  - left. by exists (S i), url.
  - destruct t as [|url|]; simpl; [by right| |by right].
    left. by exists 0%nat, url.
Qed.

(** X18: while a task is unfinished and the limit is not 0, the loop can
    move: no task is left out for lack of a permit. *)
Theorem dispatcher_progress limit urls d :
  (0 < limit)%nat →
  rtc (step env) (dispatch limit urls) d →
  (∃ t, t ∈ tasks d ∧ is_finished t = false) →
  ∃ d', step env d d'.
Proof.
  intros Hlimit Hrtc (t & Ht & Hunf).
  destruct (dispatcher_invariant limit urls d Hrtc) as [Hsum _].
  destruct d as [n ts]. simpl in *.
  destruct (holding_or_none ts) as [(i & url & Hi)|Hzero].
  { eexists. by eapply step_finish. }
  unfold in_flight in Hsum. simpl in Hsum. rewrite Hzero in Hsum.
  destruct n as [|n]; [lia|].
  apply list_elem_of_lookup in Ht as [i Hi].
  destruct t as [url|url|r]; simpl in Hunf; try done.
  - eexists. by eapply step_grant.
  - eexists. by eapply step_finish.
Qed.



End dispatcher.

(** * The runs of [parse_sitemaps] *)

Section sitemap_runs.
Context (env : environment).

(** Every way the loop over the files can end. *)
Lemma sitemap_urls_inv paths urls w r w' :
  for_each paths (scan_file env) urls w = (r, w') →
  permits w' = permits w
  ∧ (∃ lines, trace w' = trace w ++ (EvPrint <$> lines)
       ∧ match r with
         | Ret s =>
             Forall2 (fun p line => contains p line = true)
                     (List.filter (unreadable env) paths) lines
             ∧ (∀ p e, p ∈ paths → ET_parse env p = inl e → caught e)
             ∧ ∀ u, u ∈ s ↔ u ∈ urls ∨ ∃ p root, p ∈ paths ∧ ET_parse env p = inr root
                                                 ∧ listed_in root u
         | Raise e =>
             ∃ before p after, paths = before ++ p :: after
               ∧ readable env before ∧ ET_parse env p = inl e ∧ ¬ caught e
         | Blocked => False
         end).
Proof.
  revert urls w r w'. induction paths as [|p paths IH]; intros urls w r w'; simpl.
  { intros [= <- <-]. split; [done|]. exists []. split; [by rewrite app_nil_r|].
    split; [constructor|]. split; [by intros ?? ?%elem_of_nil|].
    intros u. split; [by left|]. intros [?|(? & ? & H & _)]; [done|]. by inv H. }
  unfold mbind, M_bind. rewrite scan_file_eq. unfold unreadable at 1.
  destruct (ET_parse env p) as [e|root] eqn:Hp.
  - assert (∀ line r w', 
      for_each paths (scan_file env) urls
        (World (permits w) (trace w ++ [EvPrint line])) = (r, w') →
      contains p line = true → caught e →
      permits w' = permits w
      ∧ ∃ lines, trace w' = trace w ++ (EvPrint <$> lines)
        ∧ match r with
          | Ret s =>
              Forall2 (fun p line => contains p line = true)
                      (p :: List.filter (unreadable env) paths) lines
              ∧ (∀ q e', q ∈ p :: paths → ET_parse env q = inl e' → caught e')
              ∧ ∀ u, u ∈ s ↔ u ∈ urls ∨ ∃ q root, q ∈ p :: paths
                                         ∧ ET_parse env q = inr root ∧ listed_in root u
          | Raise e' =>
              ∃ before q after, p :: paths = before ++ q :: after
                ∧ readable env before ∧ ET_parse env q = inl e' ∧ ¬ caught e'
          | Blocked => False
          end) as Hskip.
    { intros line r0 w0 Hrun Hline Hcaught.
      destruct (IH _ _ _ _ Hrun) as (Hperm & lines & Htrace & Hr). simpl in *.
      split; [done|]. exists (line :: lines). split.
      { rewrite Htrace, <-app_assoc. done. }
      destruct r0 as [s|e'|]; [|..|done].
      - destruct Hr as (Hlines & Hcaught' & Hs). split; [by constructor|]. split.
        + intros q e' Hq Hq'. inv Hq; [congruence|]. by eapply Hcaught'.
        + intros u. rewrite Hs. split; intros [?|(q & root & Hq & Hq' & ?)]; try by left.
          * right. exists q, root. split; [by right|done].
          * right. inv Hq; [congruence|]. by exists q, root.
      - destruct Hr as (before & q & after & -> & Hb & Hq & Hnc).
        exists (p :: before), q, after. split; [done|]. split; [|done].
        intros q' e'' Hq'. inv Hq'; [congruence|]. by apply Hb. }
    destruct e as [m|m|m|m|m|m]; simpl;
      try (intros [= <- <-]; split; [done|]; exists []; split; [by rewrite app_nil_r|];
           exists [], p, paths; split; [done|]; split; [by intros ?? ?%elem_of_nil|];
           split; [done|]; by intros [[? [=]]|[? [=]]]).
    + intros Hrun. apply (Hskip _ _ _ Hrun).
      * apply (contains_app (str "Error parsing XML file ")).
      * left. by exists m.
    + intros Hrun. apply (Hskip _ _ _ Hrun).
      * pose proof (contains_app (str "Sitemap file not found: ") p []) as H.
        by rewrite app_nil_r in H.
      * right. by exists m.
  - simpl. intros Hrun. destruct (IH _ _ _ _ Hrun) as (Hperm & lines & Htrace & Hr).
    split; [done|]. exists lines. split; [done|].
    destruct r as [s|e'|]; [|..|done].
    + destruct Hr as (Hlines & Hcaught' & Hs). split; [done|]. split.
      * intros q e' Hq Hq'. inv Hq; [congruence|]. by eapply Hcaught'.
      * intros u. rewrite Hs, elem_of_scan_root. split.
        -- intros [[?|?]|(q & root' & Hq & ? & ?)].
           ++ by left.
           ++ right. exists p, root. split; [left|done].
           ++ right. exists q, root'. split; [by right|done].
        -- intros [?|(q & root' & Hq & Hq' & ?)]; [by left; left|].
           inv Hq; [left; right; congruence|]. right. by exists q, root'.
    + destruct Hr as (before & q & after & -> & Hb & Hq & Hnc).
      exists (p :: before), q, after. split; [done|]. split; [|done].
      intros q' e'' Hq'. inv Hq'; [congruence|]. by apply Hb.
Qed.
End sitemap_runs.

Section sitemap_extras.
Context (env : environment).

(** X1: when every file is read, is missing or does not parse,
    [parse_sitemaps] returns, takes no permit, and prints nothing but one
    line for each file that is missing or does not parse, in the order of
    the files, each line holding the path of its file. *)
Theorem unreadable_files_reported file_paths w :
  readable env file_paths →
  ∃ l lines w',
    parse_sitemaps env file_paths w = (Ret l, w')
    ∧ permits w' = permits w
    ∧ trace w' = trace w ++ (EvPrint <$> lines)
    ∧ Forall2 (fun p line => contains p line = true)
              (List.filter (unreadable env) file_paths) lines.
Proof.
  intros Hr.
  destruct (sitemap_urls_returns env file_paths ∅ w Hr) as (s & w' & Hrun & _).
  destruct (sitemap_urls_inv env _ _ _ _ _ Hrun) as (Hperm & lines & Htrace & Hlines & _).
  exists (list_of_set env s), lines, w'.
  unfold parse_sitemaps, sitemap_urls, mbind, M_bind. by rewrite Hrun.
Qed.

(** X2: an exception of [ET.parse] that is neither a [ParseError] nor a
    [FileNotFoundError] is not handled: [parse_sitemaps] raises it at the
    first such file, returns no URL, and does not look at the files after
    it; the files before it have been reported as in X1. *)
Theorem unhandled_exception_propagates before p after e w :
  readable env before →
  ET_parse env p = inl e →
  ¬ caught e →
  ∃ lines,
    parse_sitemaps env (before ++ p :: after) w
    = (Raise e, World (permits w) (trace w ++ (EvPrint <$> lines)))
    ∧ Forall2 (fun p line => contains p line = true)
              (List.filter (unreadable env) before) lines.
Proof.
  intros Hb Hp Hn.
  destruct (sitemap_urls_returns env before ∅ w Hb) as (s & w1 & Hrun & Hperm & _).
  destruct (sitemap_urls_inv env _ _ _ _ _ Hrun) as (_ & lines & Htrace & Hlines & _).
  exists lines. split; [|done].
  unfold parse_sitemaps, sitemap_urls, mbind, M_bind.
  assert (∀ paths urls w0 r0 w0', for_each before (scan_file env) urls w0 = (Ret r0, w0') →
            for_each (before ++ paths) (scan_file env) urls w0
            = for_each paths (scan_file env) r0 w0') as Happ.
  { clear. induction before as [|x before IH]; intros paths urls w0 r0 w0'; simpl.
    - by intros [= <- <-].
    - unfold mbind, M_bind. destruct (scan_file env x urls w0) as [[u| |] w1]; try done.
      apply IH. }
  rewrite (Happ _ _ _ _ _ Hrun). simpl. unfold mbind, M_bind. rewrite scan_file_eq, Hp.
  destruct w1 as [n t]. simpl in *. subst.
  destruct e; try done; destruct Hn; [left|right]; eauto.
Qed.

(** X3: two lists that hold the same files, in any order and any number
    of times, give the same URLs up to order. *)
Theorem file_order_irrelevant paths1 paths2 w1 w2 :
  (∀ p, p ∈ paths1 ↔ p ∈ paths2) →
  readable env paths1 →
  enumerates env →
  ∃ l1 l2 w1' w2',
    parse_sitemaps env paths1 w1 = (Ret l1, w1')
    ∧ parse_sitemaps env paths2 w2 = (Ret l2, w2')
    ∧ l1 ≡ₚ l2.
Proof.
  intros Hsame Hr He.
  assert (readable env paths2) as Hr2.
  { intros p e Hp. apply Hr. by apply Hsame. }
  destruct (sitemap_urls_returns env paths1 ∅ w1 Hr) as (s1 & w1' & Hs1 & _ & Hin1).
  destruct (sitemap_urls_returns env paths2 ∅ w2 Hr2) as (s2 & w2' & Hs2 & _ & Hin2).
  assert (s1 = s2) as <-.
  { apply set_eq. intros u. rewrite Hin1, Hin2.
    split; (intros [?|(p & root & Hp & ?)]; [by left|]); right; exists p, root;
      (split; [by apply Hsame|done]). }
  exists (list_of_set env s1), (list_of_set env s1), w1', w2'.
  unfold parse_sitemaps, sitemap_urls, mbind, M_bind. by rewrite Hs1, Hs2.
Qed.
End sitemap_extras.

(** X4: a URL that is not the empty string is in the set after a file
    exactly when it was there before or is the trimmed text of the first
    [loc] of some [url] of the root. *)
Theorem nonempty_urls_extracted_exactly root urls u :
  u ≠ [] →
  u ∈ scan_root root urls ↔
  u ∈ urls ∨ ∃ url_element loc t,
      url_element ∈ findall (ns (str "url")) root
      ∧ find (ns (str "loc")) url_element = Some loc
      ∧ text loc = Some t ∧ strip t = u.
Proof.
  intros Hu. rewrite elem_of_scan_root. unfold listed_in. split.
  - intros [?|(el & loc & t & ? & ? & ? & ? & ->)]; [by left|].
    right. by exists el, loc, t.
  - intros [?|(el & loc & t & ? & ? & ? & <-)]; [by left|].
    right. exists el, loc, t. repeat split; try done. by intros ->.
Qed.

(** * The records *)

Section strip.
Implicit Types s : pystr.

Lemma lstrip_idemp s : lstrip (lstrip s) = lstrip s.
Proof.
  induction s as [|c s IH]; simpl; [done|].
  destruct (isspace c) eqn:Hc; [done|]. simpl. by rewrite Hc.
Qed.

Lemma lstrip_snoc s c : isspace c = false → lstrip (s ++ [c]) = lstrip s ++ [c].
Proof.
  intros Hc. induction s as [|x s IH]; simpl; [by rewrite Hc|].
  by destruct (isspace x).
Qed.

Lemma rstrip_cons c s : isspace c = false → rstrip (c :: s) = c :: rstrip s.
Proof.
  intros Hc. unfold rstrip. simpl. rewrite lstrip_snoc by done.
  by rewrite rev_app_distr.
Qed.

Lemma rstrip_idemp s : rstrip (rstrip s) = rstrip s.
Proof. unfold rstrip. by rewrite rev_involutive, lstrip_idemp. Qed.

Lemma lstrip_head s : lstrip s = [] ∨ ∃ c s', lstrip s = c :: s' ∧ isspace c = false.
Proof.
  induction s as [|c s IH]; simpl; [by left|].
  destruct (isspace c) eqn:Hc; [done|]. right. by exists c, s.
Qed.

Lemma strip_trimmed s : trimmed (strip s).
Proof.
  unfold trimmed, strip. split; [|apply rstrip_idemp].
  destruct (lstrip_head s) as [->|(c & s' & -> & Hc)]; [done|].
  rewrite rstrip_cons by done. simpl. by rewrite Hc.
Qed.

Lemma strip_idemp s : strip (strip s) = strip s.
Proof.
  destruct (strip_trimmed s) as [H1 H2]. unfold strip at 1. by rewrite H1, H2.
Qed.
End strip.

Section record_extras.
Context (env : environment).

Lemma returned_record html_content url w d w' :
  parse_store_details env html_content url w = (Ret (Some d), w') →
  ∃ html, html_content = Some html ∧ nonempty html = true
    ∧ ∀ w0, extract_fields (BeautifulSoup env html) url w0 = (Ret d, w0).
Proof.
  intros H. destruct (truthy html_content) eqn:Ht.
  2:{ by rewrite parse_store_details_empty in H. }
  destruct html_content as [html|]; [|done]. cbn [truthy] in Ht.
  exists html. split; [done|]. split; [done|].
  destruct (parse_store_details_parsed env html url w Ht) as (d0 & Hd0 & _ & Hrun).
  rewrite Hrun in H. destruct (truthy _); [|done]. by injection H as -> _.
Qed.

Lemma extract_fields_dom soup url w d w' :
  extract_fields soup url w = (Ret d, w') → dom d = record_keys.
Proof.
  unfold extract_fields, mbind, M_bind.
  destruct (soup_find (str "a") _ soup) as [el|].
  - destruct (lift (getitem_href el) w) as [[h| |] w1]; simpl; intros [= <- <-].
    rewrite !dom_insert_L, dom_singleton_L. unfold record_keys. simpl. set_solver.
  - simpl. intros [= <- <-].
    rewrite !dom_insert_L, dom_singleton_L. unfold record_keys. simpl. set_solver.
Qed.

Lemma soup_find_None nm p n e :
  soup_find nm p n = None → In e (descendants n) → is_tag nm p e = false.
Proof.
  unfold soup_find, find_all. intros H Hin.
  destruct (is_tag nm p e) eqn:He; [|done].
  assert (In e (List.filter (is_tag nm p) (descendants n))) as Hf by (by apply filter_In).
  destruct (List.filter _ _); [done|discriminate].
Qed.

Lemma of_optional_get_text_trimmed (el : option node) s :
  of_optional (get_text el) = VStr s → trimmed s.
Proof. destruct el; simpl; [|done]. intros [= <-]. apply strip_trimmed. Qed.

Lemma optional_str_of_optional o : optional_str (of_optional o).
Proof. destruct o; [right|left]; eauto. Qed.
End record_extras.

Section record_theorems.
Context (env : environment).

(** X5: every record [parse_store_details] returns has the same eight
    keys: [url] is the URL it was given, [name] is a string that is not
    empty, the address lines, the phone and the directions are a string or
    [None], [hours] is a dictionary and [services] a list. *)
Theorem record_schema html_content url w d w' :
  parse_store_details env html_content url w = (Ret (Some d), w') →
  dom d = record_keys
  ∧ d !! str "url" = Some (VStr url)
  ∧ (∃ n, d !! str "name" = Some (VStr n) ∧ n ≠ [])
  ∧ (∃ v, d !! str "address_line_1" = Some v ∧ optional_str v)
  ∧ (∃ v, d !! str "address_line_2" = Some v ∧ optional_str v)
  ∧ (∃ v, d !! str "phone" = Some v ∧ optional_str v)
  ∧ (∃ v, d !! str "directions_url" = Some v ∧ optional_str v)
  ∧ (∃ h, d !! str "hours" = Some (VDict h))
  ∧ (∃ l, d !! str "services" = Some (VList l)).
Proof.
  intros H.
  destruct (returned_record env _ _ _ _ _ H) as (html & -> & Hne & Hd).
  destruct (parse_store_details_parsed env html url w Hne) as (d0 & Hd0 & Hname & Hrun).
  assert (d0 = d) as -> by (specialize (Hd w); specialize (Hd0 w); congruence).
  rewrite Hrun in H.
  destruct (extract_fields_returns (BeautifulSoup env html) url)
    as (d' & dir & Hd' & Hurl & _ & Ha1 & Ha2 & Hp & Hdir & Hh & Hs & ->).
  assert (d' = d) as -> by (specialize (Hd w); specialize (Hd' w); congruence).
  split; [exact (extract_fields_dom _ url w d w (Hd w))|]. split; [done|]. split.
  { cbn zeta in Hname, H.
    destruct (get_text (soup_find (str "h1") (has_id (str "store-name"))
                                  (BeautifulSoup env html))) as [n|];
      cbn [truthy] in H; [|done].
    destruct (nonempty n) eqn:Hn; [|done]. exists n. by rewrite <-nonempty_iff. }
  split; [eexists; split; [exact Ha1|apply optional_str_of_optional]|].
  split; [eexists; split; [exact Ha2|apply optional_str_of_optional]|].
  split; [eexists; split; [exact Hp|apply optional_str_of_optional]|].
  split; [eexists; split; [exact Hdir|apply optional_str_of_optional]|].
  split; by eexists.
Qed.

(** X6: the [directions_url] of a record is a string or [None]: a
    string is the [href] of an [a] of class [external] in the page and
    contains "maps.google.com", and it is [None] only when no [a] of class
    [external] in the page has such an [href]. *)
Theorem directions_url_is_map_link html_content url w d w' :
  parse_store_details env html_content url w = (Ret (Some d), w') →
  ∃ html, html_content = Some html ∧
    let soup := BeautifulSoup env html in
    (∀ h, d !! str "directions_url" = Some (VStr h) →
       contains (str "maps.google.com") h = true
       ∧ ∃ a cs, In (Tag (str "a") a cs) (descendants soup)
           ∧ str "external" ∈ attr_class a ∧ attr_href a = Some h)
    ∧ (d !! str "directions_url" = Some VNone →
       ∀ a cs h, In (Tag (str "a") a cs) (descendants soup) →
         str "external" ∈ attr_class a → attr_href a = Some h →
         contains (str "maps.google.com") h = false)
    ∧ (d !! str "directions_url" = Some VNone
       ∨ ∃ h, d !! str "directions_url" = Some (VStr h)).
Proof.
  intros H.
  destruct (returned_record env _ _ _ _ _ H) as (html & -> & Hne & Hd).
  exists html. split; [done|]. cbn zeta. set (soup := BeautifulSoup env html) in *.
  destruct (extract_fields_returns soup url)
    as (d' & dir & Hd' & _ & _ & _ & _ & _ & Hdir & _ & _ & ->).
  assert (d' = d) as -> by (specialize (Hd w); specialize (Hd' w); congruence).
  rewrite Hdir. unfold directions_link.
  destruct (soup_find (str "a") _ soup) as [el|] eqn:Hfind.
  - destruct (directions_href _ _ _ Hfind) as (nm & a & cs & h & -> & Ha & _ & Hc).
    destruct (soup_find_Some _ _ _ _ Hfind) as [Htag Hin]. simpl in Htag.
    apply andb_true_iff in Htag as [Hnm Hp]. apply bool_decide_eq_true in Hnm as ->.
    apply andb_true_iff in Hp as [Hcls _]. apply bool_decide_eq_true in Hcls.
    rewrite Ha. simpl. split; [|split].
    + intros h' [= <-]. split; [done|]. by exists a, cs.
    + intros [=].
    + right. by exists h.
  - simpl. split; [|split].
    + intros h [=].
    + intros _ a cs h Hin Hcls Ha.
      pose proof (soup_find_None _ _ _ _ Hfind Hin) as Hno. unfold is_tag in Hno.
      rewrite bool_decide_eq_true_2 in Hno by done.
      unfold has_class in Hno. rewrite bool_decide_eq_true_2 in Hno by done.
      rewrite Ha in Hno. cbn [andb is_maps_href] in Hno.
      destruct h as [|c h]; [reflexivity|]. exact Hno.
    + by left.
Qed.

(** X7: the texts of a record carry no whitespace at their ends: the
    name, the address lines and the phone when they are strings, every
    service, and every day and every opening time; services, days and times
    are never empty. *)
Theorem record_texts_trimmed html_content url w d w' :
  parse_store_details env html_content url w = (Ret (Some d), w') →
  (∀ k s, k ∈ [str "name"; str "address_line_1"; str "address_line_2"; str "phone"] →
     d !! k = Some (VStr s) → trimmed s)
  ∧ (∀ l s, d !! str "services" = Some (VList l) → s ∈ l → trimmed s ∧ s ≠ [])
  ∧ (∀ h day time, d !! str "hours" = Some (VDict h) → h !! day = Some time →
       trimmed day ∧ day ≠ [] ∧ trimmed time ∧ time ≠ []).
Proof.
  intros H.
  destruct (returned_record env _ _ _ _ _ H) as (html & -> & Hne & Hd).
  destruct (extract_fields_returns (BeautifulSoup env html) url)
    as (d' & dir & Hd' & _ & Hn & Ha1 & Ha2 & Hp & _ & Hh & Hs & _).
  assert (d' = d) as -> by (specialize (Hd w); specialize (Hd' w); congruence).
  split; [|split].
  - intros k s Hk Hks. rewrite !elem_of_cons, elem_of_nil in Hk.
    destruct Hk as [->|[->|[->|[->|[]]]]]; rewrite Hks in *;
      match goal with Hx : Some _ = Some _ |- _ => injection Hx as Hx; symmetry in Hx end;
      by eapply of_optional_get_text_trimmed.
  - intros l s Hl Hin. rewrite Hs in Hl. injection Hl as <-.
    rewrite sorted_perm, store_services_eq in Hin.
    destruct (soup_find (str "div") (has_class (str "store-services-desktop")) _)
      as [c|]; [|by apply elem_of_nil in Hin].
    unfold service_names in Hin. apply list_elem_of_In, filter_In in Hin as [Hin Hne'].
    apply in_map_iff in Hin as (e & <- & _). split; [apply strip_trimmed|].
    by apply nonempty_iff.
  - intros h day time Hhd Hday. rewrite Hh in Hhd. injection Hhd as <-.
    unfold store_hours in Hday.
    destruct (soup_find (str "table") (has_id (str "store-hours-table")) _) as [table|];
      [|by rewrite lookup_empty in Hday].
    apply add_rows_lookup_inv in Hday as [Hday|(row & _ & Hrow)];
      [by rewrite lookup_empty in Hday|].
    destruct Hrow as (c0 & c1 & sp & _ & <- & ? & _ & <- & ?).
    repeat split; try done; apply strip_trimmed.
Qed.
End record_theorems.

(** * The pipelines and [main] *)

Section pipeline_extras.
Context (env : environment).

Lemma requests_app t1 t2 : requests (t1 ++ t2) = requests t1 ++ requests t2.
Proof. apply omap_app. Qed.

Lemma requests_prints lines : requests (EvPrint <$> lines) = [].
Proof. induction lines as [|l lines IH]; [done|]. exact IH. Qed.

Lemma dumps_prints lines : dumps (EvPrint <$> lines) = [].
Proof. induction lines as [|l lines IH]; [done|]. exact IH. Qed.

Lemma pipeline_events_requests url : requests (pipeline_events env url) = [url].
Proof.
  unfold pipeline_events.
  destruct (request env url) as [[]|t]; try destruct (nonempty t);
    try destruct (truthy _); reflexivity.
Qed.

(** What a pipeline ends with, by what its request gave. *)
Lemma pipeline_outcome_cases url :
  match request env url with
  | inl (ClientError _) => pipeline_outcome env url = Ret None
  | inl e => pipeline_outcome env url = Raise e
  | inr t =>
      if nonempty t
      then pipeline_outcome env url = Ret None
           ∨ ∃ d, pipeline_outcome env url = Ret (Some d)
      else pipeline_outcome env url = Ret None
  end.
Proof.
  unfold pipeline_outcome, scrape_and_parse_store, mbind, M_bind.
  rewrite fetch_store_page_eq. cbn zeta.
  destruct (request env url) as [[]|t]; try reflexivity.
  cbn [truthy]. destruct (nonempty t) eqn:Ht; [|reflexivity].
  set (w1 := World _ _).
  destruct (parse_store_details_parsed env t url w1 Ht) as (d & _ & _ & ->).
  destruct (truthy _); [right; by exists d|by left].
Qed.

Lemma pipeline_outcome_raise url e :
  pipeline_outcome env url = Raise e →
  request env url = inl e ∧ ∀ m, e ≠ ClientError m.
Proof.
  pose proof (pipeline_outcome_cases url) as H.
  destruct (request env url) as [[]|t]; try (rewrite H; intros [= <-]; done).
  destruct (nonempty t); [destruct H as [->|[d ->]]|rewrite H]; done.
Qed.

(** X8: when the request fails with a [ClientError] or the body is
    empty, the pipeline returns [None] after the one request, without
    parsing anything; the empty body is skipped without a line printed. *)
Theorem no_content_no_extraction url w :
  (request env url = inr [] ∨ ∃ m, request env url = inl (ClientError m)) →
  ∃ lines,
    scrape_and_parse_store env url w
    = (Ret None,
       World (permits w)
             (trace w ++ [EvEnter Fetch url; EvGet url] ++ (EvPrint <$> lines)
              ++ [EvLeave Fetch url]))
    ∧ (request env url = inr [] → lines = []).
Proof.
  unfold scrape_and_parse_store, mbind, M_bind. rewrite fetch_store_page_eq. cbn zeta.
  intros [->|[m ->]].
  - exists []. split; [reflexivity|done].
  - exists [fetch_error url (ClientError m)]. split; [reflexivity|done].
Qed.

Lemma gather_inv urls acc n t r w' :
  for_each (map (scrape_with_semaphore env) urls)
           (fun task results => r ← task; mret (results ++ [r])) acc (World (S n) t)
    = (r, w') →
  permits w' = S n
  ∧ dumps (trace w') = dumps t
  ∧ match r with
    | Ret results =>
        ∃ rest, results = acc ++ rest
          ∧ Forall2 (fun url o => pipeline_outcome env url = Ret o) urls rest
          ∧ requests (trace w') = requests t ++ urls
    | Raise e => ∃ url, url ∈ urls ∧ pipeline_outcome env url = Raise e
    | Blocked => False
    end.
Proof.
  revert acc t. induction urls as [|url urls IH]; intros acc t; simpl.
  { intros [= <- <-]. split; [done|]. split; [done|]. exists [].
    by rewrite !app_nil_r. }
  unfold mbind at 1. unfold M_bind at 1. unfold mbind at 1. unfold M_bind at 1.
  pose proof (scrape_with_semaphore_outcome env url n t) as Hout.
  destruct (scrape_with_semaphore_eq env url n t) as (r0 & Hrun & _ & Hnb).
  rewrite Hrun in Hout |- *. simpl in Hout. subst r0.
  assert (dumps (t ++ [EvAcquire] ++ pipeline_events env url ++ [EvRelease]) = dumps t)
    as Hdumps.
  { rewrite !dumps_app, pipeline_events_dumps. simpl. by rewrite ?app_nil_r. }
  assert (requests (t ++ [EvAcquire] ++ pipeline_events env url ++ [EvRelease])
          = requests t ++ [url]) as Hreq.
  { rewrite !requests_app, pipeline_events_requests. simpl. by rewrite ?app_nil_r. }
  destruct (pipeline_outcome env url) as [o|e|] eqn:Ho.
  - cbn [mret M_ret]. intros (Hp & Hd & Hres)%IH. split; [done|].
    split; [by rewrite Hd|].
    destruct r as [results|e|]; [|..|done].
    + destruct Hres as (rest & -> & Hrest & Hrq). exists (o :: rest).
      rewrite <-app_assoc. split; [done|]. split; [by constructor|].
      rewrite Hrq, Hreq, <-app_assoc. done.
    + destruct Hres as (u & Hu & He). exists u. split; [by right|done].
  - intros [= <- <-]. split; [done|]. split; [done|]. exists url. split; [left|done].
  - done.
Qed.
End pipeline_extras.

Section main_extras.
Context (env : environment).

(** X10: when no request raises an exception that is not a
    [ClientError], [gather] returns one outcome for each URL, in the order
    of the URLs, one request has been sent for each URL, and the semaphore
    has its permits again: a store that cannot be fetched or parsed does not
    stop the others. *)
Theorem gather_one_outcome_per_url urls n t :
  (∀ url e, url ∈ urls → request env url = inl e → ∃ m, e = ClientError m) →
  ∃ results w',
    gather (map (scrape_with_semaphore env) urls) (World (S n) t) = (Ret results, w')
    ∧ Forall2 (fun url o => pipeline_outcome env url = Ret o) urls results
    ∧ permits w' = S n
    ∧ requests (trace w') ≡ₚ requests t ++ urls.
Proof.
  intros Hok. unfold gather.
  destruct (for_each _ _ _ _) as [r w'] eqn:Hrun.
  destruct (gather_inv env _ _ _ _ _ _ Hrun) as (Hp & _ & Hr).
  destruct r as [results|e|]; [|..|done].
  - destruct Hr as (rest & -> & Hrest & Hreq). exists rest, w'. by rewrite Hreq.
  - destruct Hr as (url & Hin & He). apply pipeline_outcome_raise in He as [He Hn].
    destruct (Hok url e Hin He) as [m ->]. by destruct (Hn m).
Qed.


Lemma parse_sitemaps_inv paths w r w' :
  parse_sitemaps env paths w = (r, w') →
  permits w' = permits w
  ∧ requests (trace w') = requests (trace w)
  ∧ dumps (trace w') = dumps (trace w)
  ∧ match r with
    | Ret urls =>
        ∃ s, urls = list_of_set env s
             ∧ ∀ u, u ∈ s ↔ ∃ p root, p ∈ paths ∧ ET_parse env p = inr root
                                      ∧ listed_in root u
    | Raise e => ∃ p, p ∈ paths ∧ ET_parse env p = inl e ∧ ¬ caught e
    | Blocked => False
    end.
Proof.
  unfold parse_sitemaps, sitemap_urls, mbind, M_bind.
  destruct (for_each paths (scan_file env) ∅ w) as [rs w1] eqn:Hp.
  destruct (sitemap_urls_inv env _ _ _ _ _ Hp) as (Hperm & lines & Htrace & Hrs).
  assert (requests (trace w1) = requests (trace w)
          ∧ dumps (trace w1) = dumps (trace w)) as [Hreq Hdump].
  { rewrite Htrace, requests_app, dumps_app, requests_prints, dumps_prints.
    by rewrite !app_nil_r. }
  destruct rs as [s|e|]; [|..|done].
  - intros [= <- <-]. do 3 (split; [done|]). exists s. split; [done|].
    destruct Hrs as (_ & _ & Hs). intros u. rewrite Hs.
    split; [|by right]. intros [H|H]; [|done]. by apply not_elem_of_empty in H.
  - intros [= <- <-]. do 3 (split; [done|]).
    destruct Hrs as (before & p & after & -> & _ & He & Hn).
    exists p. rewrite elem_of_app, elem_of_cons. auto.
Qed.

Lemma finalize_frame results w :
  permits (finalize results w).2 = permits w
  ∧ requests (trace (finalize results w).2) = requests (trace w).
Proof.
  unfold finalize, list_sort, print, emit, mbind, M_bind. cbn [permits trace].
  destruct (keep_scraped results) as [|d0 ds].
  - cbn [snd permits trace]. by rewrite !requests_app, !app_nil_r.
  - destruct (sort_key _ _); cbn [mret M_ret raise snd permits trace];
      by rewrite !requests_app, !app_nil_r.
Qed.

Lemma outcomes_scraped urls results :
  Forall2 (fun url o => pipeline_outcome env url = Ret o) urls results →
  Forall (scraped env) results.
Proof.
  induction 1 as [|url o urls' rest Ho _ IH]; constructor; [|done].
  exists url, initial_world.
  destruct (scrape_with_semaphore_eq env url 49 []) as (r0 & Hrun & _).
  pose proof (scrape_with_semaphore_outcome env url 49 []) as Hout.
  rewrite Hrun in Hout. cbn [fst] in Hout. unfold initial_world, CONCURRENCY_LIMIT.
  rewrite Hrun. eexists. by rewrite Hout, Ho.
Qed.

(** The five ways [main] can end. *)
Lemma main_run r w' :
  main env initial_world = (r, w') →
  permits w' = CONCURRENCY_LIMIT
  ∧ ((glob_glob env SITEMAP_FILES_PATTERN = [] ∧ r = Ret tt
      ∧ requests (trace w') = [] ∧ dumps (trace w') = [])
     ∨ (∃ e p, r = Raise e ∧ p ∈ glob_glob env SITEMAP_FILES_PATTERN
          ∧ ET_parse env p = inl e ∧ ¬ caught e
          ∧ requests (trace w') = [] ∧ dumps (trace w') = [])
     ∨ (∃ s, (∀ u, u ∈ s ↔ in_sitemaps env u) ∧
          ((list_of_set env s = [] ∧ r = Ret tt
            ∧ requests (trace w') = [] ∧ dumps (trace w') = [])
           ∨ (∃ e url, r = Raise e ∧ url ∈ list_of_set env s
                ∧ pipeline_outcome env url = Raise e ∧ dumps (trace w') = [])
           ∨ (∃ results data, r = Ret tt
                ∧ requests (trace w') = list_of_set env s
                ∧ Forall2 (fun url o => pipeline_outcome env url = Ret o)
                          (list_of_set env s) results
                ∧ data ≡ₚ keep_scraped results
                ∧ StronglySorted (key_le name_key) data
                ∧ dumps (trace w') =
                  match keep_scraped results with [] => [] | _ :: _ => [data] end)))).
Proof.
  unfold main, in_sitemaps.
  destruct (glob_glob env SITEMAP_FILES_PATTERN) as [|f fs].
  { intros [= <- <-]. split; [done|]. left. done. }
  unfold mbind at 1. unfold M_bind at 1. unfold print at 1, emit at 1.
  unfold mbind at 1. unfold M_bind at 1.
  destruct (parse_sitemaps env (f :: fs) _) as [ru w1] eqn:Hp.
  destruct (parse_sitemaps_inv _ _ _ _ Hp) as (Hperm & Hreq1 & Hdump1 & Hru).
  cbn [permits trace initial_world app] in Hperm, Hreq1, Hdump1.
  destruct ru as [urls|e|]; [|..|done].
  2:{ intros [= <- <-]. split; [done|]. right. left.
      destruct Hru as (p & Hin & He & Hn). by exists e, p. }
  destruct Hru as (s & -> & Hs).
  unfold mbind at 1. unfold M_bind at 1. unfold print at 1, emit at 1.
  destruct (list_of_set env s) as [|u urls] eqn:Hurls.
  { intros [= <- <-]. split; [done|]. right. right. exists s. split; [done|]. left.
    cbn [trace]. rewrite requests_app, dumps_app, Hreq1, Hdump1. done. }
  unfold mbind at 1. unfold M_bind at 1. unfold gather.
  set (w2 := World _ _).
  assert (requests (trace w2) = [] ∧ dumps (trace w2) = []) as [Hreq2 Hdump2].
  { subst w2. cbn [trace]. rewrite requests_app, dumps_app, Hreq1, Hdump1. done. }
  assert (w2 = World (S 49) (trace w2)) as Hw2 by (subst w2; cbn; by rewrite Hperm).
  rewrite Hw2.
  destruct (for_each _ _ _ _) as [rg w3] eqn:Hg.
  destruct (gather_inv env _ _ _ _ _ _ Hg) as (Hperm3 & Hdump3 & Hrg).
  destruct rg as [results|e|]; [|..|done].
  2:{ intros [= <- <-]. split; [done|]. right. right. exists s. split; [done|].
      right. left. destruct Hrg as (url & Hin & He). exists e, url.
      by rewrite Hurls, Hdump3. }
  destruct Hrg as (rest & -> & Hrest & Hreq3). cbn [app] in *.
  destruct (finalize_run rest w3 (scraped_str_keyed env rest (outcomes_scraped _ _ Hrest)))
    as (w4 & data & Hfin & Hdata & Hsorted & Hout).
  destruct (finalize_frame rest w3) as [Hperm4 Hreq4].
  rewrite Hfin in Hperm4, Hreq4 |- *. cbn [snd] in Hperm4, Hreq4.
  intros [= <- <-]. split; [by rewrite Hperm4|].
  right. right. exists s. split; [done|]. right. right. exists rest, data.
  rewrite Hurls. split; [done|]. split; [by rewrite Hreq4, Hreq3, Hreq2|].
  split; [done|]. split; [done|]. split; [done|].
  by rewrite Hout, Hdump3, Hdump2.
Qed.
End main_extras.

Section main_theorems.
Context (env : environment).

Lemma keep_scraped_outcomes urls results :
  Forall2 (fun url o => pipeline_outcome env url = Ret o) urls results →
  keep_scraped results = omap (record_of env) urls.
Proof.
  intros H. pose proof (outcomes_scraped env _ _ H) as Hs.
  induction H as [|url o urls results Ho _ IH]; [done|].
  apply Forall_cons in Hs as [Ho' Hs].
  change (keep_scraped (o :: results))
    with (match o ≫= (fun d => if bool_decide (d = ∅) then None else Some d) with
          | Some d => d :: keep_scraped results
          | None => keep_scraped results
          end).
  change (omap (record_of env) (url :: urls))
    with (match record_of env url with
          | Some d => d :: omap (record_of env) urls
          | None => omap (record_of env) urls
          end).
  rewrite IH by done.
  replace (record_of env url) with o by (unfold record_of; rewrite Ho; by destruct o).
  destruct o as [d|]; [|done]. cbn [mbind option_bind].
  rewrite bool_decide_eq_false_2; [done|].
  apply (scraped_nonempty env [Some d]); [by constructor|by left].
Qed.

(** X11: [main] never stops at a semaphore without a permit, and when it
    returns the semaphore has all its permits again. *)
Theorem main_returns_all_permits :
  (main env initial_world).1 ≠ Blocked
  ∧ ((main env initial_world).1 = Ret tt
     → permits (main env initial_world).2 = CONCURRENCY_LIMIT).
Proof.
  destruct (main env initial_world) as [r w'] eqn:Hmain.
  destruct (main_run env r w' Hmain) as [Hp Hr]. split; [|done].
  cbn [fst]. intros ->.
  destruct Hr as [(_ & [=] & _)|[(e & p & [=] & _)|(s & _ & [(_ & [=] & _)|
    [(e & url & [=] & _)|(results & data & [=] & _)]])]].
Qed.

(** X12: a run of [main] that returns has requested every URL listed in
    a sitemap file that parses, each of them once, and no other URL. *)
Theorem main_requests_listed_urls_once w' :
  enumerates env →
  main env initial_world = (Ret tt, w') →
  NoDup (requests (trace w'))
  ∧ ∀ u, u ∈ requests (trace w') ↔ in_sitemaps env u.
Proof.
  intros Henum Hmain.
  assert (∀ s, (∀ u, u ∈ s ↔ in_sitemaps env u) →
               NoDup (list_of_set env s)
               ∧ ∀ u, u ∈ list_of_set env s ↔ in_sitemaps env u) as Hlist.
  { intros s Hs. split; [rewrite (Henum s); apply NoDup_elements|].
    intros u. by rewrite (Henum s), elem_of_elements. }
  destruct (main_run env _ w' Hmain) as [_ Hr].
  destruct Hr as [(Hglob & _ & -> & _)|[(e & p & [=] & _)|(s & Hs & [(Hnil & _ & -> & _)|
    [(e & url & [=] & _)|(results & data & _ & -> & _)]])]].
  - split; [constructor|]. intros u. split; [by intros ?%elem_of_nil|].
    intros (p & root & Hp & _). rewrite Hglob in Hp. by apply elem_of_nil in Hp.
  - rewrite <-Hnil. by apply Hlist.
  - by apply Hlist.
Qed.


(** X14: a run of [main] that returns has written at most once: the
    records of the URLs it requested whose pipeline ended with a record,
    each as many times as its URL was requested, and nothing at all when no
    pipeline ended with a record. *)
Theorem main_writes_records_of_requested w' :
  main env initial_world = (Ret tt, w') →
  ∃ data, data ≡ₚ omap (record_of env) (requests (trace w'))
    ∧ dumps (trace w') = match data with [] => [] | _ :: _ => [data] end.
Proof.
  intros Hmain.
  destruct (main_run env _ w' Hmain) as [_ Hr].
  destruct Hr as [(_ & _ & -> & ->)|[(e' & p & [=] & _)|
    (s & Hs & [(_ & _ & -> & ->)|[(e' & url & [=] & _)|
                               (results & data & _ & -> & Hres & Hperm & _ & ->)]])]].
  - by exists [].
  - by exists [].
  - exists data. rewrite <-(keep_scraped_outcomes _ _ Hres). split; [done|].
    destruct (keep_scraped results) as [|d ds].
    + by apply Permutation_nil_r in Hperm as ->.
    + destruct data; [|done]. by apply Permutation_nil_cons in Hperm.
Qed.
End main_theorems.

(** * Stability of the sort, length of the schedules *)

Section stable.
Context {A : Type} (key : A → value).

Lemma insort_key_keyed x l l' k :
  Forall (str_keyed key) l →
  StronglySorted (key_le key) l →
  insort_key key x l = Some l' →
  List.filter (keyed key k) l' = List.filter (keyed key k) l ++ List.filter (keyed key k) [x].
Proof.
  intros Hl. revert l'. induction Hl as [|y l [sy Hy] Hl IH]; intros l' Hs; simpl.
  { by intros [= <-]. }
  apply StronglySorted_cons in Hs as [Hy' Hs].
  destruct (value_lt (key x) (key y)) as [[]|] eqn:Hlt; [| |done].
  - intros [= <-]. simpl. destruct (keyed key k x) eqn:Hx; [|by rewrite app_nil_r].
    assert (∀ z, z ∈ y :: l → keyed key k z = false) as Hnone.
    { intros z Hz. unfold keyed in *. rewrite Hy in Hlt.
      destruct (key x) as [|sx| |] eqn:Hkx; try done.
      apply bool_decide_eq_true_1 in Hx as ->. injection Hlt as Hlt.
      assert (str_le sy match key z with VStr s => s | _ => sy end) as Hle.
      { apply elem_of_cons in Hz as [->|Hz]; [by rewrite Hy|].
        rewrite Forall_forall in Hy'. destruct (Hy' z Hz) as (a & b & Ha & -> & Hab).
        congruence. }
      destruct (key z) as [|sz| |]; try done.
      apply bool_decide_eq_false_2. intros ->.
      unfold str_le, str_leb in Hle. by rewrite Hlt in Hle. }
    assert (List.filter (keyed key k) (y :: l) = []) as Hnil.
    { clear -Hnone. induction (y :: l) as [|z zs IH]; simpl; [done|].
      rewrite (Hnone z) by left. apply IH. intros ??. apply Hnone. by right. }
    simpl in Hnil. by rewrite Hnil.
  - destruct (insort_key key x l) as [l''|] eqn:Hins; [|done]. intros [= <-]. simpl.
    rewrite (IH l'' Hs eq_refl). simpl. by destruct (keyed key k y).
Qed.

Lemma fold_insort_key_keyed l acc l' k :
  Forall (str_keyed key) l → Forall (str_keyed key) acc →
  StronglySorted (key_le key) acc →
  fold_left (fun acc x => acc ≫= insort_key key x) l (Some acc) = Some l' →
  List.filter (keyed key k) l' = List.filter (keyed key k) (acc ++ l).
Proof.
  intros Hl. revert acc. induction Hl as [|x l Hx Hl IH]; intros acc Hacc Hs; simpl.
  { intros [= <-]. by rewrite app_nil_r. }
  destruct (insort_key_str key x acc Hx Hacc) as (acc' & Hins & Hp & Hs').
  rewrite Hins. simpl. intros Hfold.
  rewrite (IH acc' ltac:(rewrite Hp; by constructor) (Hs' Hs) Hfold).
  rewrite !List.filter_app, (insort_key_keyed x acc acc' k Hacc Hs Hins).
  rewrite <-app_assoc. f_equal. simpl. by destruct (keyed key k x).
Qed.

(** X16: the sort of line 151 is stable: for every name, the records
    with that name come out in the order they went in. *)
Theorem sort_key_stable l l' k :
  Forall (str_keyed key) l →
  sort_key key l = Some l' →
  List.filter (keyed key k) l' = List.filter (keyed key k) l.
Proof.
  intros Hl Hsort.
  apply (fold_insort_key_keyed l [] l' k Hl); [constructor|constructor|done].
Qed.
End stable.

Section schedule.
Context (env : environment).

Lemma step_one_move d d' :
  step env d d' →
  (S (sum_list (moves_left <$> tasks d')) = sum_list (moves_left <$> tasks d))%nat.
Proof.
  intros [i url n ts H|i url n ts H]; simpl.
  - pose proof (sum_list_insert moves_left ts i _ (Holding url) H). simpl in *. lia.
  - pose proof (sum_list_insert moves_left ts i _ (Finished (pipeline_outcome env url)) H).
    simpl in *. lia.
Qed.

Lemma moves_left_finished ts :
  sum_list (moves_left <$> ts) = 0%nat ↔ Forall (fun t => is_finished t = true) ts.
Proof.
  induction ts as [|t ts IH]; csimpl; [by split; [constructor|]|].
  rewrite Forall_cons, <-IH. destruct t; simpl; split; try lia; intros []; try done.
Qed.

(** X19: a schedule of the event loop is never longer than twice the
    number of URLs, and a schedule has that length exactly when all its
    tasks are finished: the loop cannot run forever. *)
Theorem schedule_length limit urls k d :
  nsteps (step env) k (dispatch limit urls) d →
  (k ≤ 2 * length urls)%nat
  ∧ (Forall (fun t => is_finished t = true) (tasks d) ↔ k = (2 * length urls)%nat).
Proof.
  intros Hk.
  assert (k + sum_list (moves_left <$> tasks d)
          = sum_list (moves_left <$> tasks (dispatch limit urls)))%nat as Hsum.
  { induction Hk as [|k x y z Hstep _ IH]; [done|].
    apply step_one_move in Hstep. lia. }
  assert (sum_list (moves_left <$> tasks (dispatch limit urls)) = (2 * length urls)%nat)
    as Hstart.
  { unfold dispatch. cbn [tasks]. clear. induction urls as [|u urls IH]; [done|].
    change (sum_list (moves_left <$> map Waiting (u :: urls)))
      with (2 + sum_list (moves_left <$> map Waiting urls))%nat.
    cbn [length]. lia. }
  rewrite <-moves_left_finished. lia.
Qed.
End schedule.

(** * The statements on the example inputs *)

(** C2, where the code departs from it: the test of line 34 looks at the
    text of [loc] before it is trimmed, so a [loc] that holds three spaces
    passes it and the empty string is added to the set and returned among
    the URLs. *)
Theorem whitespace_loc_adds_empty_url :
  text (mkElement (ns (str "loc")) (Some (str "   ")) []) = Some (str "   ")
  ∧ strip (str "   ") = []
  ∧ scan_root sitemap_blank ∅ = {[ [] ]}
  ∧ fst (parse_sitemaps example_env [str "blank.xml.txt"] initial_world) = Ret [[]].
Proof. repeat split; vm_compute; reflexivity. Qed.

(** C1 as stated fails on a page that is fetched and parsed: the permit is
    given back after the extraction has ended, not before or during it. *)
Lemma semaphore_released_after_extraction :
  let t := trace (snd (scrape_with_semaphore example_env store_1 initial_world)) in
  t = [EvAcquire; EvEnter Fetch store_1; EvGet store_1; EvLeave Fetch store_1;
       EvEnter Extract store_1; EvLeave Extract store_1; EvRelease]
  ∧ ¬ ∃ i j, t !! i = Some EvRelease ∧ t !! j = Some (EvLeave Extract store_1)
             ∧ (i < j)%nat.
Proof.
  intros t.
  assert (t = [EvAcquire; EvEnter Fetch store_1; EvGet store_1; EvLeave Fetch store_1;
               EvEnter Extract store_1; EvLeave Extract store_1; EvRelease]) as Ht.
  { vm_compute. reflexivity. }
  split; [exact Ht|]. rewrite Ht. intros (i & j & Hi & Hj & Hij).
  do 7 (destruct i as [|i]; [try discriminate Hi|]); [|discriminate Hi].
  do 7 (destruct j as [|j]; [try discriminate Hj; try lia|]). discriminate Hj.
Qed.

(** C5 as stated fails on a response with status 300, which is not a 2xx
    status: its body is returned and nothing is printed. *)
Lemma multiple_choices_is_returned :
  session_get example_env store_5 HEADERS = inr (Response 300 (inr (str "<hahndorf>")))
  ∧ ¬ (200 ≤ 300 < 300)%Z
  ∧ fetch_store_page example_env store_5 initial_world
    = (Ret (Some (str "<hahndorf>")),
       World CONCURRENCY_LIMIT [EvEnter Fetch store_5; EvGet store_5; EvLeave Fetch store_5]).
Proof. split; [|split]; [vm_compute; reflexivity|lia|vm_compute; reflexivity]. Qed.

(** C5 on the examples: a store that answers, a store that is gone and a
    request that times out. *)
Lemma fetch_store_page_outcomes_witness :
  fst (fetch_store_page example_env store_1 initial_world) = Ret (Some (str "<berri>"))
  ∧ (∃ line, fetch_store_page example_env store_4 initial_world
             = (Ret None,
                World CONCURRENCY_LIMIT
                      [EvEnter Fetch store_4; EvGet store_4; EvPrint line;
                       EvLeave Fetch store_4])
       ∧ contains store_4 line = true)
  ∧ fst (fetch_store_page example_env store_6 initial_world)
    = Raise (OtherException (str "TimeoutError")).
Proof.
  split; [|split].
  - destruct (fetch_store_page_outcomes example_env store_1 initial_world) as (H & _).
    rewrite (H (Response 200 (inr (str "<berri>"))) (str "<berri>"));
      [reflexivity|reflexivity|cbn [status]; lia|reflexivity].
  - destruct (fetch_store_page_outcomes example_env store_4 initial_world) as (_ & H & _).
    apply (H (str "404, message='Not Found'")). right. left.
    exists (Response 404 (inr (str "<gone>"))).
    split; [reflexivity|]. split; [cbn [status]; lia|reflexivity].
  - destruct (fetch_store_page_outcomes example_env store_6 initial_world) as (_ & _ & H).
    rewrite (H (OtherException (str "TimeoutError"))); [reflexivity|discriminate|].
    left. reflexivity.
Defined.

(** C3 on the examples: the page of Berri and a page with every field but
    the name. *)
Lemma name_decides_record_witness :
  (∃ d, returned (parse_store_details example_env (Some (str "<berri>")) store_1 initial_world)
        = Some d
     ∧ d !! str "name" = Some (VStr (str "Berri")))
  ∧ ∃ line, parse_store_details example_env (Some (str "<nameless>")) store_1 initial_world
            = (Ret None,
               World CONCURRENCY_LIMIT
                     [EvEnter Extract store_1; EvPrint line; EvLeave Extract store_1])
      ∧ contains store_1 line = true.
Proof.
  split.
  - destruct (name_decides_record example_env (str "<berri>") store_1 initial_world)
      as (H & _); [reflexivity|].
    destruct (H (str "Berri")) as (d & Hd & Hname); [vm_compute; reflexivity|done|].
    exists d. by rewrite Hd.
  - destruct (name_decides_record example_env (str "<nameless>") store_1 initial_world)
      as (_ & H & _); [reflexivity|].
    apply H. left. vm_compute. reflexivity.
Defined.

(** C4 on the examples: the outcomes of four pipelines, one of which found
    its store gone. *)
Lemma final_output_sorted_witness :
  ∃ w', finalize example_results initial_world = (Ret tt, w')
    ∧ match keep_scraped example_results with
      | [] => dumps (trace w') = dumps (trace initial_world)
      | _ :: _ =>
          ∃ data, dumps (trace w') = dumps (trace initial_world) ++ [data]
            ∧ data ≡ₚ keep_scraped example_results
            ∧ (∀ d, d ∈ data ↔ Some d ∈ example_results)
            ∧ ∀ i j a b, (i < j)%nat → data !! i = Some a → data !! j = Some b →
                key_le name_key a b
      end.
Proof.
  apply (final_output_sorted example_env example_results initial_world).
  unfold example_results. cbn [map].
  apply List.Forall_cons;
    [apply scraped_returned; vm_compute; reflexivity|].
  apply List.Forall_cons;
    [apply scraped_returned; vm_compute; reflexivity|].
  apply List.Forall_cons;
    [apply scraped_returned; vm_compute; reflexivity|].
  apply List.Forall_cons;
    [apply scraped_returned; vm_compute; reflexivity|].
  apply List.Forall_nil.
Defined.

(** C8 on the examples: two files that share a URL and one that does not
    parse, read by two runs that enumerate sets in opposite orders. *)
Lemma parse_sitemaps_idempotent_dedup_witness :
  ∃ l1 l2 w1 w2,
    parse_sitemaps example_env [str "a.xml.txt"; str "bad.xml.txt"; str "b.xml.txt"]
      initial_world = (Ret l1, w1)
    ∧ parse_sitemaps example_env_reversed
        [str "a.xml.txt"; str "bad.xml.txt"; str "b.xml.txt"] initial_world = (Ret l2, w2)
    ∧ l1 ≡ₚ l2 ∧ NoDup l1 ∧ store_1 ∈ l1.
Proof.
  destruct (parse_sitemaps_idempotent_dedup example_env example_env_reversed
              [str "a.xml.txt"; str "bad.xml.txt"; str "b.xml.txt"]
              initial_world initial_world)
    as (l1 & l2 & w1 & w2 & H1 & H2 & Hperm & Hnodup & Hin).
  - reflexivity.
  - intros p e _. unfold caught. cbn [ET_parse example_env].
    repeat (destruct (same p _); [intros [=]; eauto|]). intros [= <-]. eauto.
  - intros s. reflexivity.
  - intros s. apply reverse_Permutation.
  - exists l1, l2, w1, w2. repeat (split; [assumption|]).
    apply Hin. exists (str "b.xml.txt"), sitemap_b.
    split; [rewrite !elem_of_cons; auto|]. split; [reflexivity|].
    exists (mkElement (ns (str "url")) None [mkElement (ns (str "loc")) (Some store_1) []]),
      (mkElement (ns (str "loc")) (Some store_1) []), store_1.
    split; [left|]. repeat split; try discriminate; vm_compute; reflexivity.
Defined.

(** C9 on the examples: Monday is given by the first and by the last
    row. *)
Lemma hours_last_row_wins_witness :
  store_hours page_full !! str "Monday" = Some (str "8am - 6pm")
  ∧ ∃ others, map_to_list (store_hours page_full)
              ≡ₚ (str "Monday", str "8am - 6pm") :: others
      ∧ str "Monday" ∉ others.*1.
Proof.
  apply (hours_last_row_wins page_full example_table
           [monday_morning; wide_row; tuesday; blank_row] monday_late []).
  - vm_compute. reflexivity.
  - vm_compute. reflexivity.
  - eexists _, _, _. split; [vm_compute; reflexivity|].
    repeat split; try discriminate; vm_compute; reflexivity.
  - intros row t H. by apply elem_of_nil in H.
Defined.

(** C10 on the examples: a page with a name and nothing else. *)
Lemma hours_services_always_present_witness :
  ∃ d, returned (parse_store_details example_env (Some (str "<berri>")) store_1 initial_world)
       = Some d
    ∧ d !! str "hours" = Some (VDict ∅)
    ∧ d !! str "services" = Some (VList [])
    ∧ d !! str "address_line_1" = Some VNone
    ∧ d !! str "address_line_2" = Some VNone
    ∧ d !! str "phone" = Some VNone
    ∧ d !! str "directions_url" = Some VNone.
Proof.
  destruct (parse_store_details_parsed example_env (str "<berri>") store_1 initial_world
              eq_refl) as (d & Hd & _ & Hrun).
  replace (truthy _) with true in Hrun by (vm_compute; reflexivity).
  destruct (hours_services_always_present _ _ _ _ _ _ Hrun)
    as (html & Hhtml & Hh & Hs & _ & Hnh & Hns).
  injection Hhtml as <-.
  exists d. rewrite Hrun. split; [reflexivity|].
  rewrite Hh, Hs, Hnh, Hns by (vm_compute; reflexivity).
  split; [reflexivity|]. split; [reflexivity|].
  destruct (extract_fields_returns (BeautifulSoup example_env (str "<berri>")) store_1)
    as (d' & dir & Hd' & _ & _ & Ha1 & Ha2 & Hp & Hdir & _ & _ & ->).
  assert (d' = d) as -> by (specialize (Hd initial_world); specialize (Hd' initial_world);
                            congruence).
  rewrite Ha1, Ha2, Hp, Hdir. repeat split; vm_compute; reflexivity.
Defined.

(** C6 on the examples: "Deli", "Bakery" and "Bakery", "Deli" are both
    stored as "Bakery", "Deli". *)
Lemma services_sorted_from_desktop_witness :
  sorted (store_services page_full_reordered) = sorted (store_services page_full)
  ∧ sorted (store_services page_full) = [str "Bakery"; str "Deli"].
Proof.
  split; [|vm_compute; reflexivity].
  pose proof (services_sorted_from_desktop page_full) as H.
  replace (soup_find (str "div") (has_class (str "store-services-desktop")) page_full)
    with (Some deli_bakery) in H by (vm_compute; reflexivity).
  destruct H as (_ & _ & H). apply (H page_full_reordered bakery_deli).
  - vm_compute. reflexivity.
  - vm_compute. apply perm_swap.
Defined.

(** C7 on the examples: a table with a row of three cells and a row with
    blank hours, and a page without a table. *)
Lemma hours_from_two_cell_rows_witness :
  (∀ d t, store_hours page_full !! d = Some t →
     ∃ row, row ∈ [monday_morning; wide_row; tuesday; blank_row; monday_late]
            ∧ row_entry row d t)
  ∧ is_Some (store_hours page_full !! str "Tuesday")
  ∧ store_hours page_berri = ∅.
Proof.
  pose proof (hours_from_two_cell_rows page_full) as H.
  replace (soup_find (str "table") (has_id (str "store-hours-table")) page_full)
    with (Some example_table) in H by (vm_compute; reflexivity).
  destruct H as (H1 & H2 & _). split; [exact H1|]. split.
  - apply (H2 tuesday _ (str "9am - 5pm")).
    + change (tuesday ∈ [monday_morning; wide_row; tuesday; blank_row; monday_late]).
      rewrite !elem_of_cons. auto.
    + eexists _, _, _. split; [vm_compute; reflexivity|].
      repeat split; try discriminate; vm_compute; reflexivity.
  - apply (hours_from_two_cell_rows page_berri).
Defined.

(** * The further statements on the example inputs *)

Lemma example_readable :
  readable example_env [str "a.xml.txt"; str "bad.xml.txt"; str "b.xml.txt"].
Proof.
  intros p e _. unfold caught. cbn [ET_parse example_env].
  repeat (destruct (same p _); [intros [=]; eauto|]). intros [= <-]. eauto.
Qed.

Lemma example_enumerates : enumerates example_env.
Proof. intros s. reflexivity. Qed.


Lemma run_eq {A} (m : outcome A * world) r : m.1 = r → m = (r, m.2).
Proof. destruct m. by intros <-. Qed.

Lemma example_main_returns :
  main example_env initial_world = (Ret tt, (main example_env initial_world).2).
Proof. apply run_eq. vm_compute. reflexivity. Qed.


Lemma example_first_grant :
  step example_env (dispatch 50 [store_1; store_2])
       (Dispatcher 49 [Holding store_1; Waiting store_2]).
Proof. exact (step_grant example_env 0 store_1 49 [Waiting store_1; Waiting store_2] eq_refl). Qed.

(** X1 on the examples: of three files, the one that does not parse is
    reported. *)
Lemma unreadable_files_reported_witness :
  ∃ l lines w',
    parse_sitemaps example_env [str "a.xml.txt"; str "bad.xml.txt"; str "b.xml.txt"]
      initial_world = (Ret l, w')
    ∧ permits w' = permits initial_world
    ∧ trace w' = trace initial_world ++ (EvPrint <$> lines)
    ∧ Forall2 (fun p line => contains p line = true) [str "bad.xml.txt"] lines.
Proof.
  exact (unreadable_files_reported example_env
           [str "a.xml.txt"; str "bad.xml.txt"; str "b.xml.txt"] initial_world
           example_readable).
Defined.

(** X2 on the examples: a file that cannot be opened, between two that
    parse. *)
Lemma unhandled_exception_propagates_witness :
  ∃ lines,
    parse_sitemaps locked_env [str "a.xml.txt"; str "locked.xml.txt"; str "b.xml.txt"]
      initial_world
    = (Raise (OtherException (str "Permission denied")),
       World CONCURRENCY_LIMIT (EvPrint <$> lines))
    ∧ Forall2 (fun p line => contains p line = true) [] lines.
Proof.
  apply (unhandled_exception_propagates locked_env [str "a.xml.txt"] (str "locked.xml.txt")
           [str "b.xml.txt"] (OtherException (str "Permission denied")) initial_world).
  - intros p e ->%list_elem_of_singleton. vm_compute. discriminate.
  - vm_compute. reflexivity.
  - intros [[m [=]]|[m [=]]].
Defined.

(** X3 on the examples: the two files, and the same two in the other
    order with one of them twice. *)
Lemma file_order_irrelevant_witness :
  ∃ l1 l2 w1 w2,
    parse_sitemaps example_env [str "a.xml.txt"; str "b.xml.txt"] initial_world
    = (Ret l1, w1)
    ∧ parse_sitemaps example_env [str "b.xml.txt"; str "a.xml.txt"; str "b.xml.txt"]
        initial_world = (Ret l2, w2)
    ∧ l1 ≡ₚ l2.
Proof.
  apply (file_order_irrelevant example_env).
  - intros p. rewrite !elem_of_cons, !elem_of_nil. tauto.
  - intros p e Hp. apply example_readable. rewrite !elem_of_cons in *. tauto.
  - exact example_enumerates.
Defined.

(** X4 on the examples: the first store is listed in the first file. *)
Lemma nonempty_urls_extracted_exactly_witness : store_1 ∈ scan_root sitemap_a ∅.
Proof.
  apply (nonempty_urls_extracted_exactly sitemap_a ∅ store_1); [discriminate|].
  right.
  exists (mkElement (ns (str "url")) None [mkElement (ns (str "loc")) (Some store_1) []]),
    (mkElement (ns (str "loc")) (Some store_1) []), store_1.
  split; [left|]. repeat split; vm_compute; reflexivity.
Defined.

(** The page of Hahndorf is parsed into a record. *)
Lemma example_record :
  ∃ d, parse_store_details example_env (Some (str "<hahndorf>")) store_5 initial_world
       = (Ret (Some d),
          World CONCURRENCY_LIMIT [EvEnter Extract store_5; EvLeave Extract store_5]).
Proof.
  destruct (parse_store_details_parsed example_env (str "<hahndorf>") store_5 initial_world
              eq_refl) as (d & _ & _ & Hrun).
  replace (truthy _) with true in Hrun by (vm_compute; reflexivity).
  by exists d.
Qed.

(** X5 on the examples: the record of Hahndorf. *)
Lemma record_schema_witness :
  ∃ d, returned (parse_store_details example_env (Some (str "<hahndorf>")) store_5
                   initial_world) = Some d
    ∧ dom d = record_keys
    ∧ d !! str "url" = Some (VStr store_5)
    ∧ (∃ n, d !! str "name" = Some (VStr n) ∧ n ≠ []).
Proof.
  destruct example_record as (d & Hrun).
  destruct (record_schema _ _ _ _ _ _ Hrun) as (Hdom & Hurl & Hname & _).
  exists d. by rewrite Hrun.
Defined.

(** X6 on the examples: the directions of Hahndorf. *)
Lemma directions_url_is_map_link_witness :
  ∃ d, returned (parse_store_details example_env (Some (str "<hahndorf>")) store_5
                   initial_world) = Some d
    ∧ (d !! str "directions_url" = Some VNone
       ∨ ∃ h, d !! str "directions_url" = Some (VStr h)
              ∧ contains (str "maps.google.com") h = true).
Proof.
  destruct example_record as (d & Hrun).
  destruct (directions_url_is_map_link _ _ _ _ _ _ Hrun) as (html & _ & Hstr & _ & Hd).
  exists d. rewrite Hrun. split; [done|].
  destruct Hd as [Hd|[h Hd]]; [by left|].
  right. exists h. split; [done|]. by apply Hstr.
Defined.

(** X7 on the examples: the name of Berri, which the page gives between
    spaces. *)
Lemma record_texts_trimmed_witness :
  ∃ d, returned (parse_store_details example_env (Some (str "<berri>")) store_1
                   initial_world) = Some d
    ∧ ∀ s, d !! str "name" = Some (VStr s) → trimmed s.
Proof.
  destruct (parse_store_details_parsed example_env (str "<berri>") store_1 initial_world
              eq_refl) as (d & _ & _ & Hrun).
  replace (truthy _) with true in Hrun by (vm_compute; reflexivity).
  destruct (record_texts_trimmed _ _ _ _ _ _ Hrun) as (Hname & _).
  exists d. rewrite Hrun. split; [done|].
  intros s. apply Hname. by left.
Defined.

(** X8 on the examples: the store that is gone. *)
Lemma no_content_no_extraction_witness :
  ∃ lines,
    scrape_and_parse_store example_env store_4 initial_world
    = (Ret None,
       World CONCURRENCY_LIMIT
             ([EvEnter Fetch store_4; EvGet store_4] ++ (EvPrint <$> lines)
              ++ [EvLeave Fetch store_4])).
Proof.
  destruct (no_content_no_extraction example_env store_4 initial_world) as (lines & H & _).
  - right. eexists. vm_compute. reflexivity.
  - by exists lines.
Defined.


(** X10 on the examples: a store that answers and a store that is gone. *)
Lemma gather_one_outcome_per_url_witness :
  ∃ results w',
    gather (map (scrape_with_semaphore example_env) [store_1; store_4]) initial_world
    = (Ret results, w')
    ∧ Forall2 (fun url o => pipeline_outcome example_env url = Ret o)
              [store_1; store_4] results
    ∧ permits w' = CONCURRENCY_LIMIT
    ∧ requests (trace w') ≡ₚ [store_1; store_4].
Proof.
  apply (gather_one_outcome_per_url example_env [store_1; store_4] 49 []).
  intros url e Hin. rewrite !elem_of_cons, elem_of_nil in Hin.
  destruct Hin as [->|[->|[]]]; vm_compute; intros [= <-]. by eexists.
Defined.

(** X12 on the examples: the three stores of the two files. *)
Lemma main_requests_listed_urls_once_witness :
  ∃ w', main example_env initial_world = (Ret tt, w')
    ∧ NoDup (requests (trace w'))
    ∧ ∀ u, u ∈ requests (trace w') ↔ in_sitemaps example_env u.
Proof.
  exists (main example_env initial_world).2. split; [exact example_main_returns|].
  exact (main_requests_listed_urls_once example_env _ example_enumerates
           example_main_returns).
Defined.


(** X14 on the examples: one file, with the records of the stores
    requested. *)
Lemma main_writes_records_of_requested_witness :
  ∃ w' data, main example_env initial_world = (Ret tt, w')
    ∧ data ≡ₚ omap (record_of example_env) (requests (trace w'))
    ∧ dumps (trace w') = match data with [] => [] | _ :: _ => [data] end.
Proof.
  destruct (main_writes_records_of_requested example_env _ example_main_returns)
    as (data & Hdata & Hdump).
  exists (main example_env initial_world).2, data.
  split; [exact example_main_returns|]. by split.
Defined.

(** X15 on the examples. *)
Lemma main_writes_sorted_witness :
  ∃ w', main example_env initial_world = (Ret tt, w')
    ∧ ∀ data, data ∈ dumps (trace w') →
        ∀ i j a b, (i < j)%nat → data !! i = Some a → data !! j = Some b →
          key_le name_key a b.
Proof.
  exists (main example_env initial_world).2. split; [exact example_main_returns|].
  exact (main_writes_sorted example_env _ _ example_main_returns).
Defined.

(** X16 on the examples: two entries keyed "b" around one keyed "a". *)
Lemma sort_key_stable_witness :
  List.filter (keyed (fun x : pystr * nat => VStr x.1) (str "b"))
              [(str "a", 2%nat); (str "b", 1%nat); (str "b", 3%nat)]
  = List.filter (keyed (fun x : pystr * nat => VStr x.1) (str "b"))
                [(str "b", 1%nat); (str "a", 2%nat); (str "b", 3%nat)].
Proof.
  apply (sort_key_stable (fun x : pystr * nat => VStr x.1)).
  - repeat constructor; by eexists.
  - vm_compute. reflexivity.
Defined.

(** X17 on the examples: the first of two tasks has been granted a
    permit. *)
Lemma dispatcher_bounded_witness :
  (in_flight (Dispatcher 49 [Holding store_1; Waiting store_2]) ≤ 50)%nat.
Proof.
  apply (dispatcher_bounded example_env 50 [store_1; store_2]
           (Dispatcher 49 [Holding store_1; Waiting store_2])).
  apply rtc_once. exact example_first_grant.
Defined.

(** X18 on the examples: after the first grant the loop can move. *)
Lemma dispatcher_progress_witness :
  ∃ d', step example_env (Dispatcher 49 [Holding store_1; Waiting store_2]) d'.
Proof.
  apply (dispatcher_progress example_env 50 [store_1; store_2]).
  - lia.
  - apply rtc_once. exact example_first_grant.
  - exists (Waiting store_2). split; [|done]. right. left.
Defined.

(** X19 on the examples: one move of the four that two URLs take. *)
Lemma schedule_length_witness :
  (1 ≤ 2 * 2)%nat
  ∧ (Forall (fun t => is_finished t = true) [Holding store_1; Waiting store_2]
     ↔ 1%nat = (2 * 2)%nat).
Proof.
  apply (schedule_length example_env 50 [store_1; store_2] 1
           (Dispatcher 49 [Holding store_1; Waiting store_2])).
  apply nsteps_once. exact example_first_grant.
Defined.

